(** * Retail Analytics Copilot: the hybrid query-answering workflow

    A shallow embedding of the orchestrator ([agent/graph_hybrid.py]), the
    SQL validator ([agent/tools/sql_validator.py]), the database wrapper
    ([agent/tools/sqlite_tool.py]), the document retriever
    ([agent/rag/retrieval.py]) and the batch driver ([run_agent_hybrid.py]).

    Conventions.
    - A Python [str] is a [string]; the development covers ASCII text, so
      [str.lower] maps [A-Z] to [a-z] and leaves every other character alone,
      and [\w], [\s] are the ASCII classes.
    - A Python [int] is a [Z]; a similarity score (a finite float) is a [Q].
    - A call that may raise returns a [result]: [Ok v] or [Raise msg], where
      [msg] is the text [str(e)] of the exception.
    - Everything outside the repository (the language model behind the three
      DSPy modules, SQLite, scikit-learn's vectorizer, the files under
      [docs/]) is a field of the environment record [Env]. *)

From Stdlib Require Import List String Ascii ZArith QArith Bool Lia Arith.
From Stdlib Require Import Permutation Sorted.
Import ListNotations.
Local Open Scope string_scope.
Local Open Scope Z_scope.

Set Implicit Arguments.

(** ** Exceptions *)

Inductive result (A : Type) : Type :=
| Ok (a : A)
| Raise (msg : string).
Arguments Ok {A} a.
Arguments Raise {A} msg.

Definition bind {A B} (r : result A) (k : A -> result B) : result B :=
  match r with
  | Ok a => k a
  | Raise m => Raise m
  end.

Notation "'let*' x ':=' r 'in' k" := (bind r (fun x => k))
  (at level 10, x name, r at level 100, k at level 200).

(** ** Python string operations *)

Module PyStr.

Definition char_in_range (lo hi : nat) (c : ascii) : bool :=
  let n := nat_of_ascii c in (Nat.leb lo n && Nat.leb n hi)%bool.

Definition is_upper (c : ascii) : bool := char_in_range 65 90 c.
Definition is_lower (c : ascii) : bool := char_in_range 97 122 c.
Definition is_digit (c : ascii) : bool := char_in_range 48 57 c.

(** [str.isspace] on ASCII: tab, newline, VT, FF, CR, FS, GS, RS, US, space. *)
Definition is_space (c : ascii) : bool :=
  (char_in_range 9 13 c || char_in_range 28 32 c)%bool.

(** The class [\w]. *)
Definition is_word (c : ascii) : bool :=
  (is_upper c || is_lower c || is_digit c || Ascii.eqb c "_"%char)%bool.

Definition lower_char (c : ascii) : ascii :=
  if is_upper c then ascii_of_nat (nat_of_ascii c + 32) else c.

(** [s.lower()] *)
Fixpoint lower (s : string) : string :=
  match s with
  | EmptyString => EmptyString
  | String c r => String (lower_char c) (lower r)
  end.

Fixpoint lstrip (s : string) : string :=
  match s with
  | EmptyString => EmptyString
  | String c r => if is_space c then lstrip r else s
  end.

(** Removes trailing whitespace: a character is kept when it is not
    whitespace or something is kept after it. *)
Fixpoint rstrip (s : string) : string :=
  match s with
  | EmptyString => EmptyString
  | String c r =>
      match rstrip r with
      | EmptyString => if is_space c then EmptyString else String c EmptyString
      | r' => String c r'
      end
  end.

(** [s.strip()] *)
Definition strip (s : string) : string := rstrip (lstrip s).

Fixpoint starts_with (p s : string) : bool :=
  match p, s with
  | EmptyString, _ => true
  | String a p', String b s' => (Ascii.eqb a b && starts_with p' s')%bool
  | String _ _, EmptyString => false
  end.

(** [needle in hay] *)
Fixpoint contains (needle hay : string) : bool :=
  (starts_with needle hay ||
   match hay with
   | EmptyString => false
   | String _ r => contains needle r
   end)%bool.

Fixpoint drop (n : nat) (s : string) : string :=
  match n, s with
  | O, _ => s
  | S n', String _ r => drop n' r
  | S _, EmptyString => EmptyString
  end.

Fixpoint take (n : nat) (s : string) : string :=
  match n, s with
  | O, _ => EmptyString
  | S n', String c r => String c (take n' r)
  | S _, EmptyString => EmptyString
  end.

(** [s.replace(old, new)] for a non-empty [old]: the occurrences are found
    left to right and do not overlap. *)
Fixpoint replace_fuel (fuel : nat) (old new s : string) : string :=
  match fuel with
  | O => s
  | S f =>
      match s with
      | EmptyString => EmptyString
      | String c r =>
          if starts_with old s
          then new ++ replace_fuel f old new (drop (String.length old) s)
          else String c (replace_fuel f old new r)
      end
  end.

Definition replace (old new s : string) : string :=
  replace_fuel (String.length s) old new s.

(** [s.split(sep)] for a non-empty [sep]; [cur] holds, reversed by
    appending, the piece being read. *)
Fixpoint split_fuel (fuel : nat) (sep s cur : string) : list string :=
  match fuel with
  | O => [cur ++ s]
  | S f =>
      match s with
      | EmptyString => [cur]
      | String c r =>
          if starts_with sep s
          then cur :: split_fuel f sep (drop (String.length sep) s) EmptyString
          else split_fuel f sep r (cur ++ String c EmptyString)
      end
  end.

Definition split (sep s : string) : list string :=
  split_fuel (String.length s) sep s EmptyString.

(** [sep.join(parts)] *)
Fixpoint join (sep : string) (parts : list string) : string :=
  match parts with
  | [] => EmptyString
  | [p] => p
  | p :: rest => p ++ sep ++ join sep rest
  end.

Definition digit_char (n : nat) : ascii := ascii_of_nat (48 + n).

Fixpoint str_of_nat_fuel (fuel n : nat) (acc : string) : string :=
  match fuel with
  | O => acc
  | S f =>
      let acc' := String (digit_char (n mod 10)) acc in
      match (n / 10)%nat with
      | O => acc'
      | q => str_of_nat_fuel f q acc'
      end
  end.

(** [str(n)] for a non-negative [int]. *)
Definition str_of_nat (n : nat) : string := str_of_nat_fuel (S n) n EmptyString.

Definition newline : string := String (ascii_of_nat 10) EmptyString.

(** Lexicographic order on code points, the order of [sorted] on strings. *)
Fixpoint leb (a b : string) : bool :=
  match a, b with
  | EmptyString, _ => true
  | String _ _, EmptyString => false
  | String x a', String y b' =>
      if Nat.ltb (nat_of_ascii x) (nat_of_ascii y) then true
      else if Nat.ltb (nat_of_ascii y) (nat_of_ascii x) then false
      else leb a' b'
  end.

Fixpoint insert_sorted (x : string) (l : list string) : list string :=
  match l with
  | [] => [x]
  | y :: r => if leb x y then x :: l else y :: insert_sorted x r
  end.

(** [sorted(l)] *)
Definition sorted (l : list string) : list string :=
  fold_right insert_sorted [] l.

Definition mem (x : string) (l : list string) : bool :=
  existsb (String.eqb x) l.

(** The elements of [set(l)], each once, in order of first occurrence. *)
Fixpoint dedup (l : list string) : list string :=
  match l with
  | [] => []
  | x :: r => x :: filter (fun y => negb (String.eqb x y)) (dedup r)
  end.

End PyStr.

(** ** Regular expressions

    The patterns of the program are few and small; they are written as
    values of [regex] and run by a backtracking matcher with Python's
    priorities: quantifiers are greedy, the left alternative is tried first,
    a scan reports the leftmost matches and they do not overlap. *)

Module Re.

Inductive regex : Type :=
| Eps
| Chr (p : ascii -> bool)
| Seq (r1 r2 : regex)
| Alt (r1 r2 : regex)
| Star (r : regex)
| Grp (n : nat) (r : regex)
| Bnd.

Definition Plus (r : regex) : regex := Seq r (Star r).

Definition seq_of (rs : list regex) : regex := fold_right Seq Eps rs.

Definition chr (c : ascii) : regex := Chr (Ascii.eqb c).

(** A literal under [re.IGNORECASE]. *)
Fixpoint lit_ci (s : string) : regex :=
  match s with
  | EmptyString => Eps
  | String c r =>
      Seq (Chr (fun x => Ascii.eqb (PyStr.lower_char x) (PyStr.lower_char c)))
          (lit_ci r)
  end.

Definition word : regex := Chr PyStr.is_word.
Definition space : regex := Chr PyStr.is_space.

(** The groups that took part in a match, the latest binding first. *)
Definition caps : Type := list (nat * string).

Fixpoint group (n : nat) (cs : caps) : string :=
  match cs with
  | [] => EmptyString
  | (k, s) :: r => if Nat.eqb k n then s else group n r
  end.

(** [\b]: exactly one of the characters around the position is a word
    character. *)
Definition at_boundary (before : option ascii) (s : string) : bool :=
  xorb (match before with Some c => PyStr.is_word c | None => false end)
       (match s with String c _ => PyStr.is_word c | EmptyString => false end).

Definition found : Type := (option ascii * string * caps)%type.

(** [run r before s cs k]: match [r] at the front of [s], where [before] is
    the character preceding [s], then continue with [k]. *)
Fixpoint run (r : regex) (before : option ascii) (s : string) (cs : caps)
  (k : option ascii -> string -> caps -> option found) : option found :=
  match r with
  | Eps => k before s cs
  | Chr f =>
      match s with
      | String c s' => if f c then k (Some c) s' cs else None
      | EmptyString => None
      end
  | Seq r1 r2 => run r1 before s cs (fun b' s' cs' => run r2 b' s' cs' k)
  | Alt r1 r2 =>
      match run r1 before s cs k with
      | Some x => Some x
      | None => run r2 before s cs k
      end
  | Star r' =>
      (fix loop (n : nat) (before : option ascii) (s : string) (cs : caps)
         : option found :=
         match n with
         | O => k before s cs
         | S n' =>
             match run r' before s cs
                     (fun b' s' cs' =>
                        if Nat.ltb (String.length s') (String.length s)
                        then loop n' b' s' cs' else None) with
             | Some x => Some x
             | None => k before s cs
             end
         end) (S (String.length s)) before s cs
  | Grp n r' =>
      run r' before s cs
        (fun b' s' cs' =>
           k b' s' ((n, PyStr.take (String.length s - String.length s') s) :: cs'))
  | Bnd => if at_boundary before s then k before s cs else None
  end.

Definition match_at (r : regex) (before : option ascii) (s : string)
  : option found :=
  run r before s [] (fun b' s' cs' => Some (b', s', cs')).

(** The successive matches of [r] in [s]: for each, the text skipped since
    the previous match and the groups; then the text after the last one. *)
Fixpoint scan (fuel : nat) (r : regex) (before : option ascii) (s skipped : string)
  : list (string * caps) * string :=
  match fuel with
  | O => ([], skipped ++ s)
  | S f =>
      match match_at r before s with
      | Some (b', s', cs) =>
          if Nat.ltb (String.length s') (String.length s)
          then let (ms, tl) := scan f r b' s' EmptyString in
               ((skipped, cs) :: ms, tl)
          else match s with
               | EmptyString => ([(skipped, cs)], EmptyString)
               | String c s'' =>
                   let (ms, tl) := scan f r (Some c) s'' (String c EmptyString) in
                   ((skipped, cs) :: ms, tl)
               end
      | None =>
          match s with
          | EmptyString => ([], skipped)
          | String c s'' => scan f r (Some c) s'' (skipped ++ String c EmptyString)
          end
      end
  end.

Definition finditer (r : regex) (s : string) : list (string * caps) * string :=
  scan (S (String.length s)) r None s EmptyString.

(** [re.search(r, s)] as a truth value. *)
Definition search (r : regex) (s : string) : bool :=
  match fst (finditer r s) with
  | [] => false
  | _ :: _ => true
  end.

(** [re.findall(r, s)] for a pattern with one group. *)
Definition findall1 (r : regex) (s : string) : list string :=
  map (fun m => group 1 (snd m)) (fst (finditer r s)).

(** [re.findall(r, s)] for a pattern with two groups; a group that took no
    part in the match reads as the empty string. *)
Definition findall2 (r : regex) (s : string) : list (string * string) :=
  map (fun m => (group 1 (snd m), group 2 (snd m))) (fst (finditer r s)).

(** [re.sub(r, template, s)] *)
Definition sub (r : regex) (template : caps -> string) (s : string) : string :=
  let (ms, tl) := finditer r s in
  String.concat EmptyString (map (fun m => fst m ++ template (snd m)) ms) ++ tl.

(** [re.match(r, s)]: a match at the start of [s]. *)
Definition match_start (r : regex) (s : string) : option caps :=
  match match_at r None s with
  | Some (_, _, cs) => Some cs
  | None => None
  end.

End Re.

(** ** The database wrapper ([agent/tools/sqlite_tool.py]) *)

Module SQLiteTool.

Inductive sql_value : Type :=
| SqlNull
| SqlInt (z : Z)
| SqlReal (q : Q)
| SqlText (s : string)
| SqlBlob (b : string).

Record Column : Type := { col_name : string; col_type : string }.

Record Table : Type := { table_name : string; table_columns : list Column }.

Record QueryResult : Type := {
  columns : list string;
  rows : list (list sql_value);
  error : option string
}.

(** What SQLite does for one connection: [db_catalog] is the content of
    [sqlite_master] with each table's [PRAGMA table_info], [db_run] runs a
    statement and fetches its column names and rows.  Both may raise. *)
Record Db : Type := {
  db_catalog : result (list Table);
  db_run : string -> result (list string * list (list sql_value))
}.

Definition execute_query (db : Db) (query : string) : QueryResult :=
  match db_run db query with
  | Ok (cols, rws) => {| columns := cols; rows := rws; error := None |}
  | Raise e => {| columns := []; rows := []; error := Some e |}
  end.

Definition column_line (c : Column) : string :=
  "  - " ++ col_name c ++ " (" ++ col_type c ++ ")" ++ PyStr.newline.

Definition table_text (t : Table) : string :=
  "Table: " ++ table_name t ++ PyStr.newline
  ++ String.concat EmptyString (map column_line (table_columns t))
  ++ PyStr.newline.

Definition get_schema (db : Db) (table_names : option (list string))
  : result string :=
  let* all := db_catalog db in
  let tables :=
    match table_names with
    | Some (n :: ns) =>
        filter (fun t => PyStr.mem (table_name t) (n :: ns)) all
    | _ => all
    end in
  Ok (String.concat EmptyString (map table_text tables)).

Definition get_all_tables (db : Db) : result (list string) :=
  let* all := db_catalog db in Ok (map table_name all).

End SQLiteTool.

(** ** The SQL validator ([agent/tools/sql_validator.py]) *)

Module SQLValidator.

Import Re.

Definition dquote : ascii := ascii_of_nat 34.

(** [\bWITH\b] *)
Definition with_pattern : regex := seq_of [Bnd; lit_ci "WITH"; Bnd].

(** [\b(\w+)\s+AS\s*\(] *)
Definition cte_pattern : regex :=
  seq_of [Bnd; Grp 1 (Plus word); Plus space; lit_ci "AS"; Star space; chr "("].

Definition open_quote (c : ascii) : bool :=
  (Ascii.eqb c "`" || Ascii.eqb c dquote || Ascii.eqb c "[")%bool.

Definition close_quote (c : ascii) : bool :=
  (Ascii.eqb c "`" || Ascii.eqb c dquote || Ascii.eqb c "]")%bool.

(** The table pattern: a word boundary, [FROM] or [JOIN], whitespace, then
    either a quoted name (group 1: opened by a backquote, a double quote or
    an opening bracket, closed by a backquote, a double quote or a closing
    bracket, with none of the closing characters inside) or a bare word
    (group 2). *)
Definition table_pattern : regex :=
  seq_of [Bnd; Alt (lit_ci "FROM") (lit_ci "JOIN"); Plus space;
          Alt (seq_of [Chr open_quote;
                       Grp 1 (Plus (Chr (fun c => negb (close_quote c))));
                       Chr close_quote])
              (Grp 2 (Plus word))].

(** [([a-z])([A-Z])] *)
Definition camel_pattern : regex :=
  Seq (Grp 1 (Chr PyStr.is_lower)) (Grp 2 (Chr PyStr.is_upper)).

(** [\b(\w+)\.(\w+)\b] *)
Definition column_pattern : regex :=
  seq_of [Bnd; Grp 1 (Plus word); chr "."; Grp 2 (Plus word); Bnd].

(** [\s*-\s*(\w+)\s*\(] *)
Definition schema_line_pattern : regex :=
  seq_of [Star space; chr "-"; Star space; Grp 1 (Plus word); Star space; chr "("].

Record t : Type := {
  valid_tables : list string;
  valid_columns : list (string * list string)
}.

Record Validation : Type := { valid : bool; errors : list string }.

(** [s.add(x)] on a set kept as a list without repetition. *)
Definition set_add (x : string) (s : list string) : list string :=
  if PyStr.mem x s then s else (s ++ [x])%list.

(** [d[k] = v] on a dictionary kept in insertion order. *)
Fixpoint dict_set (k : string) (v : list string) (d : list (string * list string))
  : list (string * list string) :=
  match d with
  | [] => [(k, v)]
  | (k', v') :: r =>
      if String.eqb k k' then (k, v) :: r else (k', v') :: dict_set k v r
  end.

Definition extract_columns_from_schema (schema_str : string) : list string :=
  flat_map
    (fun line =>
       if PyStr.starts_with "- " (PyStr.strip line)
       then match match_start schema_line_pattern line with
            | Some cs => [group 1 cs]
            | None => []
            end
       else [])
    (PyStr.split PyStr.newline schema_str).

Fixpoint load_tables (db : SQLiteTool.Db) (tables : list string) (v : t)
  : result t :=
  match tables with
  | [] => Ok v
  | table :: rest =>
      let* schema_str := SQLiteTool.get_schema db (Some [table]) in
      let cols := extract_columns_from_schema schema_str in
      load_tables db rest
        {| valid_tables := set_add (PyStr.lower table) (valid_tables v);
           valid_columns :=
             dict_set (PyStr.lower table)
                      (PyStr.dedup (map PyStr.lower cols)) (valid_columns v) |}
  end.

(** [SQLValidator()]: the constructor reads the schema. *)
Definition init (db : SQLiteTool.Db) : result t :=
  let* tables := SQLiteTool.get_all_tables db in
  load_tables db tables {| valid_tables := []; valid_columns := [] |}.

Definition remove_spaces (s : string) : string := PyStr.replace " " "" s.

(** [re.sub(r'([a-z])([A-Z])', r'\1 \2', clean_table).lower()] *)
Definition spaced (clean_table : string) : string :=
  PyStr.lower
    (sub camel_pattern (fun cs => group 1 cs ++ " " ++ group 2 cs) clean_table).

(** The three comparisons of one known table with a candidate. *)
Definition table_matches (clean_table valid_table : string) : bool :=
  let table_lower := PyStr.lower clean_table in
  (String.eqb table_lower valid_table
   || String.eqb (spaced clean_table) valid_table
   || String.eqb (remove_spaces table_lower) (remove_spaces valid_table))%bool.

(** The value of [found_match] after the loop over [valid_tables]. *)
Definition found_match (v : t) (clean_table : string) : bool :=
  existsb (table_matches clean_table) (valid_tables v).

Definition table_error (v : t) (table : string) : string :=
  "Table '" ++ table ++ "' does not exist in schema. Valid tables: "
  ++ PyStr.join ", " (PyStr.sorted (valid_tables v)).

(** The body of the loop over [found_tables]: the errors it appends. *)
Definition check_table (v : t) (cte_names : list string) (table : string)
  : list string :=
  let clean_table := PyStr.strip table in
  if PyStr.mem (PyStr.lower clean_table) (map PyStr.lower cte_names)
  then []
  else if found_match v clean_table then [] else [table_error v table].

Definition all_columns (v : t) : list string :=
  PyStr.dedup (flat_map snd (valid_columns v)).

Definition find_similar_columns (v : t) (column : string) : list string :=
  firstn 3
    (filter (fun valid_col =>
               (PyStr.contains column valid_col
                || PyStr.contains valid_col column)%bool)
            (all_columns v)).

Definition check_column (v : t) (ref : string * string) : list string :=
  let column := snd ref in
  let column_lower := PyStr.lower column in
  if existsb (fun tc => PyStr.mem column_lower (snd tc)) (valid_columns v)
  then []
  else match find_similar_columns v column_lower with
       | [] => ["Column '" ++ column ++ "' not found in any table schema"]
       | suggestions =>
           ["Column '" ++ column
            ++ "' not found in any table schema. Did you mean: "
            ++ PyStr.join ", " suggestions ++ "?"]
       end.

Definition cte_names_of (sql_query : string) : list string :=
  if search with_pattern sql_query
  then PyStr.dedup (findall1 cte_pattern sql_query)
  else [].

Definition found_tables_of (sql_query : string) : list string :=
  map (fun m => if String.eqb (fst m) EmptyString then snd m else fst m)
      (findall2 table_pattern sql_query).

Definition table_errors (v : t) (sql_query : string) : list string :=
  flat_map (check_table v (cte_names_of sql_query)) (found_tables_of sql_query).

Definition column_errors (v : t) (sql_query : string) : list string :=
  flat_map (check_column v) (findall2 column_pattern sql_query).

Definition validate_sql (v : t) (sql_query : string) : Validation :=
  if (String.eqb sql_query EmptyString
      || String.eqb (PyStr.strip sql_query) EmptyString)%bool
  then {| valid := true; errors := [] |}
  else
    let errs := (table_errors v sql_query ++ column_errors v sql_query)%list in
    {| valid := Nat.eqb (List.length errs) 0; errors := errs |}.

Definition get_schema_summary (v : t) : string :=
  "Valid Tables:" ++ PyStr.newline
  ++ String.concat EmptyString
       (map (fun table =>
               "  - " ++ table ++ PyStr.newline
               ++ match find (fun kv => String.eqb (fst kv) table) (valid_columns v) with
                  | Some kv =>
                      "    Columns: " ++ PyStr.join ", " (PyStr.sorted (snd kv))
                      ++ PyStr.newline
                  | None => EmptyString
                  end)
            (PyStr.sorted (valid_tables v))).

End SQLValidator.

(** ** The document retriever ([agent/rag/retrieval.py]) *)

Module Retriever.

Record Chunk : Type := { id : string; content : string; source : string }.

(** A copy of a chunk with its ["score"]. *)
Record Scored : Type := { chunk : Chunk; score : Q }.

(** [self.vectorizer] together with [self.tfidf_matrix]: when fitted, the
    cosine similarity of a query to the chunk of a given index. *)
Record t : Type := {
  chunks : list Chunk;
  vectorizer : option (string -> nat -> Q)
}.

Fixpoint enumerate_from {A} (i : nat) (l : list A) : list (nat * A) :=
  match l with
  | [] => []
  | x :: r => (i, x) :: enumerate_from (S i) r
  end.

Definition chunk_id (filename : string) (i : nat) : string :=
  filename ++ "::chunk" ++ PyStr.str_of_nat i.

Definition section_sep : string := PyStr.newline ++ "## ".

(** The chunks of one file, given its base name and its text. *)
Definition chunks_of_file (file : string * string) : list Chunk :=
  let filename := PyStr.replace ".md" "" (fst file) in
  flat_map
    (fun p =>
       let i := fst p in
       let section := if Nat.ltb 0 i then "## " ++ snd p else snd p in
       let lines :=
         filter (fun l => negb (String.eqb l EmptyString))
                (map PyStr.strip (PyStr.split PyStr.newline section)) in
       match lines with
       | [] => []
       | _ :: _ =>
           [{| id := chunk_id filename i;
               content := PyStr.join PyStr.newline lines;
               source := filename |}]
       end)
    (enumerate_from 0 (PyStr.split section_sep (snd file))).

Definition load_and_chunk_docs (files : list (string * string)) : list Chunk :=
  flat_map chunks_of_file files.

(** [Retriever()]: [files] are the markdown files of the directory in the
    order [glob] lists them, [fit] is the vectorizer's [fit_transform]. *)
Definition init (files : result (list (string * string)))
  (fit : list string -> result (string -> nat -> Q)) : result t :=
  let* fs := files in
  let cs := load_and_chunk_docs fs in
  match cs with
  | [] => Ok {| chunks := cs; vectorizer := None |}
  | _ :: _ =>
      let* sim := fit (map content cs) in
      Ok {| chunks := cs; vectorizer := Some sim |}
  end.

Fixpoint insert_index (sims : list Q) (i : nat) (l : list nat) : list nat :=
  match l with
  | [] => [i]
  | j :: r =>
      if Qle_bool (nth i sims 0%Q) (nth j sims 0%Q)
      then i :: l else j :: insert_index sims i r
  end.

(** [similarities.argsort()]: the indices in ascending order of similarity
    (equal similarities keep their index order). *)
Definition argsort (sims : list Q) : list nat :=
  fold_right (insert_index sims) [] (seq 0 (List.length sims)).

(** The slice [l[start:]] of Python for any integer [start]. *)
Definition slice_from {A} (start : Z) (l : list A) : list A :=
  let n := Z.of_nat (List.length l) in
  let i := if start <? 0 then Z.max 0 (n + start) else Z.min start n in
  skipn (Z.to_nat i) l.

Definition search (r : t) (query : string) (top_k : Z) : list Scored :=
  match vectorizer r, chunks r with
  | None, _ => []
  | Some _, [] => []
  | Some sim, _ :: _ =>
      let similarities := map (sim query) (seq 0 (List.length (chunks r))) in
      let top_indices := rev (slice_from (- top_k) (argsort similarities)) in
      flat_map
        (fun idx =>
           let s := nth idx similarities 0%Q in
           if negb (Qle_bool s 0)
           then match nth_error (chunks r) idx with
                | Some c => [{| chunk := c; score := s |}]
                | None => []
                end
           else [])
        top_indices
  end.

End Retriever.

(** ** The workflow ([agent/graph_hybrid.py]) *)

Record AgentState : Type := {
  question : string;
  format_hint : string;
  strategy : string;
  context : list Retriever.Scored;
  schema : string;
  sql_query : string;
  sql_result : option SQLiteTool.QueryResult;
  final_answer : option string;
  explanation : string;
  citations : list string;
  errors : list string;
  repair_count : Z
}.

(** The dictionary a node returns: the keys it writes. *)
Record Update : Type := {
  u_strategy : option string;
  u_context : option (list Retriever.Scored);
  u_schema : option string;
  u_sql_query : option string;
  u_sql_result : option SQLiteTool.QueryResult;
  u_final_answer : option (option string);
  u_explanation : option string;
  u_citations : option (list string);
  u_errors : option (list string);
  u_repair_count : option Z
}.

Definition no_update : Update :=
  {| u_strategy := None; u_context := None; u_schema := None;
     u_sql_query := None; u_sql_result := None; u_final_answer := None;
     u_explanation := None; u_citations := None; u_errors := None;
     u_repair_count := None |}.

Definition or_keep {A} (new : option A) (old : A) : A :=
  match new with
  | Some v => v
  | None => old
  end.

(** The engine writes each returned key over the state's value; no key of
    [AgentState] declares a reducer. *)
Definition apply_update (st : AgentState) (u : Update) : AgentState :=
  {| question := question st;
     format_hint := format_hint st;
     strategy := or_keep (u_strategy u) (strategy st);
     context := or_keep (u_context u) (context st);
     schema := or_keep (u_schema u) (schema st);
     sql_query := or_keep (u_sql_query u) (sql_query st);
     sql_result :=
       match u_sql_result u with
       | Some r => Some r
       | None => sql_result st
       end;
     final_answer := or_keep (u_final_answer u) (final_answer st);
     explanation := or_keep (u_explanation u) (explanation st);
     citations := or_keep (u_citations u) (citations st);
     errors := or_keep (u_errors u) (errors st);
     repair_count := or_keep (u_repair_count u) (repair_count st) |}.

(** What the nodes reach outside the program at one moment. *)
Record Env : Type := {
  (** [CoT_Router()(question=...).strategy] *)
  router_lm : string -> result string;
  (** [CoT_SQL()(question=..., schema=...).sql_query] *)
  sql_lm : string -> string -> result string;
  (** [CoT_Synthesizer()(...)]: [final_answer] and [short_explanation];
      the SQL result is handed over as it is, not as its [str]. *)
  synth_lm : string -> string -> string -> option SQLiteTool.QueryResult
             -> string -> result (option string * string);
  (** the markdown files under [docs/]: base name and text *)
  docs : result (list (string * string));
  (** [TfidfVectorizer(stop_words='english').fit_transform] and the cosine
      similarity against the fitted matrix *)
  tfidf : list string -> result (string -> nat -> Q);
  db : SQLiteTool.Db
}.

(** *** Nodes *)

(** The strategy the router derives from the model's text. *)
Definition classify (pred_strategy : string) : string :=
  let strategy := PyStr.strip (PyStr.lower pred_strategy) in
  if (PyStr.contains "sql" strategy && PyStr.contains "rag" strategy)%bool
  then "hybrid"
  else if PyStr.contains "sql" strategy then "sql"
  else "rag".

Definition router_node (env : Env) (st : AgentState) : result Update :=
  let* pred := router_lm env (question st) in
  Ok {| u_strategy := Some (classify pred); u_context := None; u_schema := None;
        u_sql_query := None; u_sql_result := None; u_final_answer := None;
        u_explanation := None; u_citations := None; u_errors := None;
        u_repair_count := None |}.

Definition retriever_node (env : Env) (st : AgentState) : result Update :=
  let* retriever := Retriever.init (docs env) (tfidf env) in
  let results := Retriever.search retriever (question st) 3 in
  Ok {| u_strategy := None; u_context := Some results; u_schema := None;
        u_sql_query := None; u_sql_result := None; u_final_answer := None;
        u_explanation := None; u_citations := None; u_errors := None;
        u_repair_count := None |}.

Definition planner_node (env : Env) (st : AgentState) : result Update :=
  Ok no_update.

(** [YEAR\(([^)]+)\)] and [MONTH\(([^)]+)\)], both under [re.IGNORECASE]. *)
Definition call_pattern (name : string) : Re.regex :=
  Re.seq_of [Re.lit_ci name; Re.chr "(";
             Re.Grp 1 (Re.Plus (Re.Chr (fun c => negb (Ascii.eqb c ")"))));
             Re.chr ")"].

Definition clean_sql (pred_sql_query : string) : string :=
  let q := PyStr.strip
             (PyStr.replace "```" "" (PyStr.replace "```sql" "" pred_sql_query)) in
  let q := Re.sub (call_pattern "YEAR")
                  (fun cs => "strftime('%Y', " ++ Re.group 1 cs ++ ")") q in
  Re.sub (call_pattern "MONTH")
         (fun cs => "strftime('%m', " ++ Re.group 1 cs ++ ")") q.

Definition sql_generator_node (env : Env) (st : AgentState) : result Update :=
  let* schema_text := SQLiteTool.get_schema (db env) None in
  let* pred := sql_lm env (question st) schema_text in
  let q := clean_sql pred in
  let* validator := SQLValidator.init (db env) in
  let validation_result := SQLValidator.validate_sql validator q in
  if negb (SQLValidator.valid validation_result)
  then Ok {| u_strategy := None; u_context := None; u_schema := Some schema_text;
             u_sql_query := Some q; u_sql_result := None; u_final_answer := None;
             u_explanation := None; u_citations := None;
             u_errors := Some (SQLValidator.errors validation_result);
             u_repair_count := None |}
  else Ok {| u_strategy := None; u_context := None; u_schema := Some schema_text;
             u_sql_query := Some q; u_sql_result := None; u_final_answer := None;
             u_explanation := None; u_citations := None; u_errors := None;
             u_repair_count := None |}.

(** The truth value of [result["error"]]: a non-empty string. *)
Definition truthy_error (e : option string) : option string :=
  match e with
  | Some EmptyString => None
  | Some m => Some m
  | None => None
  end.

Definition executor_node (env : Env) (st : AgentState) : result Update :=
  let res := SQLiteTool.execute_query (db env) (sql_query st) in
  match truthy_error (SQLiteTool.error res) with
  | Some e =>
      Ok {| u_strategy := None; u_context := None; u_schema := None;
            u_sql_query := None; u_sql_result := Some res; u_final_answer := None;
            u_explanation := None; u_citations := None; u_errors := Some [e];
            u_repair_count := None |}
  | None =>
      Ok {| u_strategy := None; u_context := None; u_schema := None;
            u_sql_query := None; u_sql_result := Some res; u_final_answer := None;
            u_explanation := None; u_citations := None; u_errors := None;
            u_repair_count := None |}
  end.

Definition citation_tables : list string :=
  ["Orders"; "Order Details"; "Products"; "Customers"].

Definition cites_table (q t : string) : bool :=
  (PyStr.contains (PyStr.lower t) (PyStr.lower q)
   || PyStr.contains (PyStr.lower (PyStr.replace " " "" t))
                     (PyStr.replace " " "" (PyStr.lower q)))%bool.

Definition build_citations (q : string) (ctx : list Retriever.Scored) : list string :=
  ((if String.eqb q EmptyString then [] else filter (cites_table q) citation_tables)
   ++ map (fun c => Retriever.id (Retriever.chunk c)) ctx)%list.

Definition context_line (c : Retriever.Scored) : string :=
  "[" ++ Retriever.id (Retriever.chunk c) ++ "] "
  ++ Retriever.content (Retriever.chunk c).

Definition synthesizer_node (env : Env) (st : AgentState) : result Update :=
  let context_str := PyStr.join PyStr.newline (map context_line (context st)) in
  let* pred := synth_lm env (question st) context_str (sql_query st)
                        (sql_result st) (format_hint st) in
  Ok {| u_strategy := None; u_context := None; u_schema := None;
        u_sql_query := None; u_sql_result := None;
        u_final_answer := Some (fst pred);
        u_explanation := Some (snd pred);
        u_citations := Some (build_citations (sql_query st) (context st));
        u_errors := None; u_repair_count := None |}.

Definition mentions_missing (e : string) : bool :=
  (PyStr.contains "does not exist" e || PyStr.contains "not found" e)%bool.

Definition repair_node (env : Env) (st : AgentState) : result Update :=
  let* _ :=
    if (negb (Nat.eqb (List.length (errors st)) 0)
        && existsb mentions_missing (errors st))%bool
    then let* validator := SQLValidator.init (db env) in
         Ok (SQLValidator.get_schema_summary validator)
    else Ok EmptyString in
  Ok {| u_strategy := None; u_context := None; u_schema := None;
        u_sql_query := None; u_sql_result := None; u_final_answer := None;
        u_explanation := None; u_citations := None; u_errors := Some [];
        u_repair_count := Some (repair_count st + 1) |}.

(** *** Edges *)

Definition route_strategy (st : AgentState) : string := strategy st.

Definition route_retriever (st : AgentState) : string :=
  if String.eqb (strategy st) "rag" then "synthesizer" else "planner".

Definition check_execution (st : AgentState) : string :=
  if (negb (Nat.eqb (List.length (errors st)) 0) && (repair_count st <? 2))%bool
  then "repair" else "synthesize".

(** *** Graph *)

Inductive Node : Type :=
| router | retriever | planner | sql_generator | executor | synthesizer | repair.

Definition Node_eq_dec (a b : Node) : {a = b} + {a <> b}.
Proof. decide equality. Defined.

Definition node_fn (n : Node) : Env -> AgentState -> result Update :=
  match n with
  | router => router_node
  | retriever => retriever_node
  | planner => planner_node
  | sql_generator => sql_generator_node
  | executor => executor_node
  | synthesizer => synthesizer_node
  | repair => repair_node
  end.

(** The path map of a conditional edge; a label it does not list is a
    [KeyError], whose text is the quoted label. *)
Fixpoint follow (label : string) (path_map : list (string * Node)) : result Node :=
  match path_map with
  | [] => Raise ("'" ++ label ++ "'")
  | (k, n) :: r => if String.eqb label k then Ok n else follow label r
  end.

(** The node after [n] in a state, [None] for [END]. *)
Definition next_node (n : Node) (st : AgentState) : result (option Node) :=
  match n with
  | router =>
      let* m := follow (route_strategy st)
                  [("rag", retriever); ("sql", planner); ("hybrid", retriever)] in
      Ok (Some m)
  | retriever =>
      let* m := follow (route_retriever st)
                  [("synthesizer", synthesizer); ("planner", planner)] in
      Ok (Some m)
  | planner => Ok (Some sql_generator)
  | sql_generator => Ok (Some executor)
  | executor =>
      let* m := follow (check_execution st)
                  [("repair", repair); ("synthesize", synthesizer)] in
      Ok (Some m)
  | repair => Ok (Some sql_generator)
  | synthesizer => Ok None
  end.

Inductive Outcome : Type :=
| Finished (st : AgentState)
| Raised (msg : string)
| OutOfFuel.

(** One run of the compiled graph.  [world k] is the environment seen by the
    [k]-th node visit, so that two calls of the same model or two looks at
    the database may differ.  The result is the list of the nodes entered,
    in order, and how the run ended. *)
Fixpoint run (fuel : nat) (world : nat -> Env) (tick : nat) (n : Node)
  (st : AgentState) : list Node * Outcome :=
  match fuel with
  | O => ([], OutOfFuel)
  | S f =>
      match node_fn n (world tick) st with
      | Raise m => ([n], Raised m)
      | Ok u =>
          let st' := apply_update st u in
          match next_node n st' with
          | Raise m => ([n], Raised m)
          | Ok None => ([n], Finished st')
          | Ok (Some n') =>
              let (tr, out) := run f world (S tick) n' st' in
              (n :: tr, out)
          end
      end
  end.

(** The engine's default bound on the number of steps of one invocation;
    passing it raises. *)
Definition recursion_limit : nat := 25.

Definition invoke_trace (world : nat -> Env) (st : AgentState)
  : list Node * Outcome :=
  run recursion_limit world 0 router st.

(** [app.invoke(initial_state)]: the final state, or the exception. *)
Definition invoke (world : nat -> Env) (st : AgentState) : result AgentState :=
  match snd (invoke_trace world st) with
  | Finished st' => Ok st'
  | Raised m => Raise m
  | OutOfFuel => Raise "GraphRecursionError"
  end.

(** ** The batch driver ([run_agent_hybrid.py]) *)

Record Question : Type := {
  q_id : string;
  q_question : string;
  q_format_hint : string
}.

Record Output : Type := {
  o_id : string;
  o_final_answer : option string;
  o_sql : string;
  o_confidence : Q;
  o_explanation : string;
  o_citations : list string
}.

Definition initial_state (q : Question) : AgentState :=
  {| question := q_question q;
     format_hint := q_format_hint q;
     strategy := "";
     context := [];
     schema := "";
     sql_query := "";
     sql_result := None;
     final_answer := None;
     explanation := "";
     citations := [];
     errors := [];
     repair_count := 0 |}.

(** The body of the loop over the questions. *)
Definition process_question (world : nat -> Env) (q : Question) : Output :=
  match invoke world (initial_state q) with
  | Ok final_state =>
      {| o_id := q_id q;
         o_final_answer := final_answer final_state;
         o_sql := sql_query final_state;
         o_confidence :=
           match errors final_state with
           | [] => 8 # 10
           | _ :: _ => 4 # 10
           end;
         o_explanation := explanation final_state;
         o_citations := citations final_state |}
  | Raise e =>
      {| o_id := q_id q;
         o_final_answer := Some "Error processing request.";
         o_sql := "";
         o_confidence := 0;
         o_explanation := e;
         o_citations := [] |}
  end.

(** [worlds i] is what the [i]-th question's invocation meets. *)
Fixpoint process_from (worlds : nat -> nat -> Env) (i : nat) (qs : list Question)
  : list Output :=
  match qs with
  | [] => []
  | q :: rest => process_question (worlds i) q :: process_from worlds (S i) rest
  end.

(** The records written to the output file, in order. *)
Definition process_questions (worlds : nat -> nat -> Env) (questions : list Question)
  : list Output :=
  process_from worlds 0 questions.

(** * Properties *)

(** ** Strings *)

Section StringFacts.

Import PyStr.

(** [occurs n h]: [n] is a substring of [h]. *)
Definition occurs (needle hay : string) : Prop :=
  exists a b, hay = a ++ needle ++ b.

(** A string of whitespace only (the empty string included). *)
Fixpoint whitespace_only (s : string) : bool :=
  match s with
  | EmptyString => true
  | String c r => (is_space c && whitespace_only r)%bool
  end.

Lemma starts_with_spec (p s : string) :
  starts_with p s = true <-> exists b, s = p ++ b.
Proof.
  revert s; induction p as [|a p IH]; intros s; simpl.
  - split; [intros _; exists s; reflexivity | reflexivity].
  - destruct s as [|c s].
    + split; [discriminate | intros [b Hb]; discriminate].
    + rewrite andb_true_iff, Ascii.eqb_eq, IH. split.
      * intros [-> [b ->]]. exists b. reflexivity.
      * intros [b Hb]. injection Hb as -> ->. split; [reflexivity | eauto].
Qed.

Lemma contains_spec (needle hay : string) :
  contains needle hay = true <-> occurs needle hay.
Proof.
  unfold occurs. induction hay as [|c hay IH]; simpl.
  - rewrite orb_false_r, starts_with_spec. split.
    + intros [b Hb]. exists EmptyString, b. exact Hb.
    + intros [[|x a] [b Hb]]; [exists b; exact Hb | discriminate].
  - rewrite orb_true_iff, starts_with_spec, IH. split.
    + intros [[b Hb] | [a [b Hb]]].
      * exists EmptyString, b. exact Hb.
      * exists (String c a), b. simpl. now rewrite Hb.
    + intros [[|x a] [b Hb]].
      * left. exists b. exact Hb.
      * right. simpl in Hb. injection Hb as _ Hb. eauto.
Qed.

Lemma lstrip_whitespace_only (s : string) :
  whitespace_only s = true -> lstrip s = EmptyString.
Proof.
  induction s as [|c s IH]; simpl; [reflexivity|].
  intros H. apply andb_true_iff in H as [Hc Hs]. rewrite Hc. now apply IH.
Qed.

Lemma strip_whitespace_only (s : string) :
  whitespace_only s = true -> strip s = EmptyString.
Proof.
  intros H. unfold strip. now rewrite lstrip_whitespace_only.
Qed.

End StringFacts.

(** ** The validator on blank input *)

(** C9.  For every SQL string that is empty or made of whitespace only,
    [validate_sql] answers [valid = True] with no error, whatever tables and
    columns the validator holds: the schema is not consulted. *)
Theorem validate_sql_blank (v : SQLValidator.t) (sql : string) :
  whitespace_only sql = true ->
  SQLValidator.validate_sql v sql
  = {| SQLValidator.valid := true; SQLValidator.errors := [] |}.
Proof.
  intros H. unfold SQLValidator.validate_sql.
  rewrite (strip_whitespace_only _ H). simpl.
  now rewrite orb_true_r.
Qed.

Lemma validate_sql_blank_witness :
  whitespace_only "  " = true
  /\ SQLValidator.validate_sql
       {| SQLValidator.valid_tables := ["orders"];
          SQLValidator.valid_columns := [("orders", ["orderid"])] |} "  "
     = {| SQLValidator.valid := true; SQLValidator.errors := [] |}.
Proof.
  split; [reflexivity | apply validate_sql_blank; reflexivity].
Defined.

(** ** The router *)

Definition strategy_update (s : string) : Update :=
  {| u_strategy := Some s; u_context := None; u_schema := None;
     u_sql_query := None; u_sql_result := None; u_final_answer := None;
     u_explanation := None; u_citations := None; u_errors := None;
     u_repair_count := None |}.

Lemma classify_cases (s : string) :
  classify s = "hybrid" \/ classify s = "sql" \/ classify s = "rag".
Proof.
  unfold classify.
  destruct (PyStr.contains "sql" _), (PyStr.contains "rag" _); simpl; auto.
Qed.

(** C2.  For every string [s] the model returns, the router lower-cases and
    trims it and answers exactly one of [hybrid], [sql], [rag]: [hybrid] when
    both [sql] and [rag] occur in the normalised text, [sql] when only [sql]
    occurs, [rag] in every other case; the node then returns this strategy and
    does not raise. *)
Theorem router_classification (s : string) :
  let t := PyStr.strip (PyStr.lower s) in
  (classify s = "hybrid" <-> occurs "sql" t /\ occurs "rag" t)
  /\ (classify s = "sql" <-> occurs "sql" t /\ ~ occurs "rag" t)
  /\ (classify s = "rag" <-> ~ occurs "sql" t)
  /\ (classify s = "hybrid" \/ classify s = "sql" \/ classify s = "rag")
  /\ (forall env st, router_lm env (question st) = Ok s ->
        router_node env st = Ok (strategy_update (classify s))).
Proof.
  intros t. subst t.
  rewrite <- !contains_spec. unfold classify.
  destruct (PyStr.contains "sql" _) eqn:Hs, (PyStr.contains "rag" _) eqn:Hr;
    simpl; repeat split; intros; try tauto; try discriminate;
    try (intuition discriminate); auto.
  all: unfold router_node; rewrite H; simpl; unfold classify;
    rewrite Hs; try rewrite Hr; reflexivity.
Qed.

Lemma router_classification_witness :
  router_node
    {| router_lm := fun _ => Ok " SQL (with RAG) ";
       sql_lm := fun _ _ => Raise "";
       synth_lm := fun _ _ _ _ _ => Raise "";
       docs := Ok []; tfidf := fun _ => Raise "";
       db := {| SQLiteTool.db_catalog := Ok [];
                SQLiteTool.db_run := fun _ => Raise "" |} |}
    {| question := "Revenue during the summer campaign?"; format_hint := "float";
       strategy := ""; context := []; schema := ""; sql_query := "";
       sql_result := None; final_answer := None; explanation := "";
       citations := []; errors := []; repair_count := 0 |}
  = Ok (strategy_update "hybrid").
Proof.
  apply (proj2 (proj2 (proj2 (proj2 (router_classification " SQL (with RAG) "))))).
  reflexivity.
Defined.

(** ** Table names: case and spacing *)

Section TableMatching.

Import PyStr SQLValidator.

(** [s] without its space characters. *)
Fixpoint squeeze (s : string) : string :=
  match s with
  | EmptyString => EmptyString
  | String c r => if Ascii.eqb " " c then squeeze r else String c (squeeze r)
  end.

Lemma append_nil_r (s : string) : s ++ EmptyString = s.
Proof. induction s; simpl; congruence. Qed.

Lemma append_assoc (a b c : string) : (a ++ b) ++ c = a ++ (b ++ c).
Proof. induction a; simpl; congruence. Qed.

Lemma replace_space_fuel (n : nat) (s : string) :
  (String.length s <= n)%nat -> replace_fuel n " " "" s = squeeze s.
Proof.
  revert s; induction n as [|n IH]; intros [|c r] Hn; simpl in *;
    try reflexivity; try lia.
  rewrite andb_true_r. destruct (Ascii.eqb " " c); simpl;
    rewrite IH by lia; reflexivity.
Qed.

Lemma remove_spaces_squeeze (s : string) : remove_spaces s = squeeze s.
Proof. apply replace_space_fuel. lia. Qed.

Lemma squeeze_app (a b : string) : squeeze (a ++ b) = squeeze a ++ squeeze b.
Proof.
  induction a as [|c a IH]; cbn [squeeze String.append]; [reflexivity|].
  destruct (Ascii.eqb " " c); cbn [String.append]; congruence.
Qed.

Lemma lower_app (a b : string) : lower (a ++ b) = lower a ++ lower b.
Proof. induction a; simpl; congruence. Qed.

Lemma lower_char_space (c : ascii) :
  Ascii.eqb " " (lower_char c) = Ascii.eqb " " c.
Proof. destruct c as [[] [] [] [] [] [] [] []]; reflexivity. Qed.

Lemma squeeze_lower (s : string) : squeeze (lower s) = lower (squeeze s).
Proof.
  induction s as [|c s IH]; cbn [squeeze lower]; [reflexivity|].
  rewrite lower_char_space. destruct (Ascii.eqb " " c); cbn [lower]; congruence.
Qed.

(** The text compared by the third strategy. *)
Definition key (s : string) : string := squeeze (lower s).

Lemma key_app (a b : string) : key (a ++ b) = key a ++ key b.
Proof. unfold key. now rewrite lower_app, squeeze_app. Qed.

Definition camel_template (cs : Re.caps) : string :=
  Re.group 1 cs ++ " " ++ Re.group 2 cs.

Lemma camel_match_at (before : option ascii) (s : string) :
  Re.match_at camel_pattern before s
  = match s with
    | String c1 (String c2 s') =>
        if (is_lower c1 && is_upper c2)%bool
        then Some (Some c2, s',
                   [(2%nat, String c2 EmptyString); (1%nat, String c1 EmptyString)])
        else None
    | _ => None
    end.
Proof.
  unfold Re.match_at, camel_pattern. simpl.
  destruct s as [|c1 [|c2 s']]; simpl; try reflexivity.
  - destruct (is_lower c1); reflexivity.
  - destruct (is_lower c1); simpl; [|reflexivity].
    destruct (is_upper c2); simpl; [|reflexivity].
    replace (String.length s' - String.length s')%nat with 0%nat by lia.
    destruct (String.length s').
    + reflexivity.
    + replace (S n - n)%nat with 1%nat by lia. reflexivity.
Qed.

Definition rebuilt (ms : list (string * Re.caps)) (tl : string) : string :=
  String.concat EmptyString (map (fun m => fst m ++ camel_template (snd m)) ms) ++ tl.

Lemma rebuilt_cons (m : string * Re.caps) (ms : list (string * Re.caps)) (tl : string) :
  rebuilt (m :: ms) tl = fst m ++ camel_template (snd m) ++ rebuilt ms tl.
Proof.
  unfold rebuilt. destruct ms as [|m' ms]; cbn [map String.concat].
  - now rewrite append_assoc.
  - now rewrite !append_assoc.
Qed.

Lemma camel_key (c1 c2 : ascii) :
  key (String c1 (String " " (String c2 EmptyString)))
  = key (String c1 (String c2 EmptyString)).
Proof.
  unfold key. cbn [lower squeeze].
  change (lower_char " ") with " "%char.
  change (Ascii.eqb " " " ") with true. reflexivity.
Qed.

Lemma camel_scan_key (fuel : nat) :
  forall before s skipped,
    key (let (ms, tl) := Re.scan fuel camel_pattern before s skipped in rebuilt ms tl)
    = key (skipped ++ s).
Proof.
  induction fuel as [|f IH]; intros before s skipped.
  - reflexivity.
  - cbn [Re.scan]. rewrite camel_match_at.
    destruct s as [|c1 [|c2 s']].
    + unfold rebuilt. simpl. now rewrite append_nil_r.
    + specialize (IH (Some c1) EmptyString (skipped ++ String c1 EmptyString)).
      rewrite IH. rewrite ?append_nil_r, ?append_assoc. reflexivity.
    + destruct (is_lower c1 && is_upper c2)%bool.
      * replace (String.length s' <? String.length (String c1 (String c2 s')))%nat
          with true by (symmetry; apply Nat.ltb_lt; simpl; lia).
        specialize (IH (Some c2) s' EmptyString).
        destruct (Re.scan f camel_pattern (Some c2) s' EmptyString) as [ms tl].
        rewrite rebuilt_cons. cbn [fst snd].
        change (skipped ++ String c1 (String c2 s'))
          with (skipped ++ (String c1 (String c2 EmptyString) ++ s')).
        rewrite !key_app, IH.
        change (camel_template _)
          with (String c1 (String " " (String c2 EmptyString))).
        now rewrite camel_key.
      * specialize (IH (Some c1) (String c2 s') (skipped ++ String c1 EmptyString)).
        rewrite IH. now rewrite append_assoc.
Qed.

Lemma spaced_key (t : string) : remove_spaces (spaced t) = remove_spaces (lower t).
Proof.
  rewrite !remove_spaces_squeeze. unfold spaced, Re.sub, Re.finditer.
  pose proof (camel_scan_key (S (String.length t)) None t EmptyString) as H.
  unfold key, rebuilt in H.
  destruct (Re.scan _ _ _ _ _) as [ms tl]. exact H.
Qed.

Lemma table_matches_key (t vt : string) :
  table_matches t vt
  = String.eqb (remove_spaces (lower t)) (remove_spaces vt).
Proof.
  unfold table_matches.
  destruct (String.eqb (remove_spaces (lower t)) (remove_spaces vt)) eqn:E.
  - now rewrite !orb_true_r.
  - rewrite orb_false_r. apply String.eqb_neq in E.
    apply orb_false_iff. split; apply String.eqb_neq; intros H; apply E.
    + now rewrite H.
    + now rewrite <- H, spaced_key.
Qed.

Lemma found_match_key (v : SQLValidator.t) (t t' : string) :
  remove_spaces (lower t) = remove_spaces (lower t') ->
  found_match v t = found_match v t'.
Proof.
  intros H. unfold found_match. induction (valid_tables v) as [|vt l IH]; simpl.
  - reflexivity.
  - now rewrite !table_matches_key, H, IH.
Qed.

Lemma found_match_spec (v : SQLValidator.t) (t : string) :
  found_match v t = true
  <-> exists vt, In vt (valid_tables v)
        /\ (lower t = vt \/ spaced t = vt
            \/ remove_spaces (lower t) = remove_spaces vt).
Proof.
  unfold found_match, table_matches. rewrite existsb_exists.
  split; intros [vt [Hin H]]; exists vt; split; auto.
  - rewrite !orb_true_iff, !String.eqb_eq in H. tauto.
  - rewrite !orb_true_iff, !String.eqb_eq. tauto.
Qed.

Lemma mem_spec (x : string) (l : list string) : mem x l = true <-> In x l.
Proof.
  unfold mem. rewrite existsb_exists. split.
  - intros [y [Hy E]]. apply String.eqb_eq in E. now subst.
  - intros H. exists x. split; [exact H | apply String.eqb_refl].
Qed.

Lemma set_add_spec (x y : string) (s : list string) :
  In x (set_add y s) <-> x = y \/ In x s.
Proof.
  unfold set_add. destruct (mem y s) eqn:E.
  - apply mem_spec in E. split; [auto | intros [-> | H]; assumption].
  - rewrite in_app_iff. simpl. intuition.
Qed.

Lemma load_tables_valid (db : SQLiteTool.Db) (tables : list string) :
  forall v v', load_tables db tables v = Ok v' ->
    forall x, In x (valid_tables v) \/ In x (map lower tables) ->
      In x (valid_tables v').
Proof.
  induction tables as [|t rest IH]; intros v v' H x Hx; simpl in H.
  - injection H as <-. destruct Hx as [Hx | []]. exact Hx.
  - destruct (SQLiteTool.get_schema db (Some [t])) as [sch|m]; simpl in H;
      [|discriminate].
    eapply IH; [exact H|]. simpl. rewrite set_add_spec.
    destruct Hx as [Hx | [Hx | Hx]]; auto.
Qed.

Lemma init_has_table (db : SQLiteTool.Db) (v : SQLValidator.t)
  (cat : list SQLiteTool.Table) (name : string) :
  SQLiteTool.db_catalog db = Ok cat ->
  In name (map SQLiteTool.table_name cat) ->
  init db = Ok v ->
  In (lower name) (valid_tables v).
Proof.
  intros Hc Hin Hv. unfold init, SQLiteTool.get_all_tables in Hv.
  rewrite Hc in Hv. simpl in Hv.
  eapply load_tables_valid; [exact Hv|]. right. now apply in_map.
Qed.

Definition accepted : Validation := {| valid := true; errors := [] |}.

Lemma check_table_accepted (v : SQLValidator.t) (ctes : list string) (t : string) :
  found_match v (strip t) = true -> check_table v ctes t = [].
Proof.
  intros H. unfold check_table. rewrite H. now destruct (mem _ _).
Qed.

(** C4.  Table matching does not depend on case or on writing the name in
    CamelCase or with spaces.  For a database holding the table
    [Order Details], the candidates [OrderDetails], [orderdetails] and
    [Order Details] are all accepted, and SQL naming the table in any of the
    three ways validates with the same result, no error.  A candidate is
    accepted exactly when some known table equals its lower-cased form, or
    its CamelCase-to-spaces form, or agrees with it once the spaces of both
    are removed; hence two candidates that agree up to case and spaces are
    treated alike. *)
Theorem table_name_variants (db : SQLiteTool.Db) (v : SQLValidator.t)
  (cat : list SQLiteTool.Table) :
  SQLiteTool.db_catalog db = Ok cat ->
  In "Order Details" (map SQLiteTool.table_name cat) ->
  init db = Ok v ->
  (forall t, In t ["OrderDetails"; "orderdetails"; "Order Details"] ->
     found_match v t = true /\ forall ctes, check_table v ctes t = [])
  /\ validate_sql v "SELECT * FROM OrderDetails" = accepted
  /\ validate_sql v "SELECT * FROM orderdetails" = accepted
  /\ validate_sql v "SELECT * FROM [Order Details]" = accepted
  /\ (forall t, found_match v t = true
        <-> exists vt, In vt (valid_tables v)
              /\ (lower t = vt \/ spaced t = vt
                  \/ remove_spaces (lower t) = remove_spaces vt))
  /\ (forall t t', remove_spaces (lower t) = remove_spaces (lower t') ->
        found_match v t = found_match v t').
Proof.
  intros Hc Hin Hv.
  pose proof (@init_has_table _ _ _ _ Hc Hin Hv) as Hod.
  change (lower "Order Details") with "order details" in Hod.
  assert (Hfm : forall t, In t ["OrderDetails"; "orderdetails"; "Order Details"] ->
                          found_match v t = true).
  { intros t Ht. apply found_match_spec. exists "order details".
    split; [exact Hod|].
    simpl in Ht. destruct Ht as [<- | [<- | [<- | []]]]; vm_compute; auto. }
  assert (Hct : forall t ctes, In t ["OrderDetails"; "orderdetails"; "Order Details"] ->
                               check_table v ctes t = []).
  { intros t ctes Ht. apply check_table_accepted.
    replace (strip t) with t; [now apply Hfm|].
    simpl in Ht. destruct Ht as [<- | [<- | [<- | []]]]; reflexivity. }
  assert (Hsql : forall sql t,
             In t ["OrderDetails"; "orderdetails"; "Order Details"] ->
             (String.eqb sql EmptyString || String.eqb (strip sql) EmptyString)%bool = false ->
             found_tables_of sql = [t] ->
             Re.findall2 column_pattern sql = [] ->
             validate_sql v sql = accepted).
  { intros sql t Ht Hne Hft Hcol. unfold validate_sql, table_errors, column_errors.
    rewrite Hne, Hft, Hcol. simpl. now rewrite (Hct t _ Ht). }
  repeat split.
  - now apply Hfm.
  - intros ctes. now apply Hct.
  - apply (Hsql _ "OrderDetails"); [simpl; auto | reflexivity ..].
  - apply (Hsql _ "orderdetails"); [simpl; auto | reflexivity ..].
  - apply (Hsql _ "Order Details"); [simpl; auto | reflexivity ..].
  - apply found_match_spec.
  - apply found_match_spec.
  - apply found_match_key.
Qed.

Definition northwind_catalog : list SQLiteTool.Table :=
  [{| SQLiteTool.table_name := "Orders";
      SQLiteTool.table_columns :=
        [{| SQLiteTool.col_name := "OrderID"; SQLiteTool.col_type := "INTEGER" |};
         {| SQLiteTool.col_name := "OrderDate"; SQLiteTool.col_type := "DATETIME" |}] |};
   {| SQLiteTool.table_name := "Order Details";
      SQLiteTool.table_columns :=
        [{| SQLiteTool.col_name := "OrderID"; SQLiteTool.col_type := "INTEGER" |};
         {| SQLiteTool.col_name := "Quantity"; SQLiteTool.col_type := "INTEGER" |}] |}].

(** A small database: two tables, and every statement fails to run. *)
Definition northwind : SQLiteTool.Db :=
  {| SQLiteTool.db_catalog := Ok northwind_catalog;
     SQLiteTool.db_run := fun _ => Raise "no such table: Nope" |}.

Definition northwind_validator : SQLValidator.t :=
  {| valid_tables := ["orders"; "order details"];
     valid_columns := [("orders", ["orderid"; "orderdate"]);
                       ("order details", ["orderid"; "quantity"])] |}.

Lemma table_name_variants_witness :
  init northwind = Ok northwind_validator
  /\ validate_sql northwind_validator "SELECT * FROM OrderDetails" = accepted
  /\ validate_sql northwind_validator "SELECT * FROM orderdetails" = accepted
  /\ validate_sql northwind_validator "SELECT * FROM [Order Details]" = accepted.
Proof.
  assert (Hc : SQLiteTool.db_catalog northwind = Ok northwind_catalog)
    by reflexivity.
  assert (Hin : In "Order Details" (map SQLiteTool.table_name northwind_catalog))
    by (simpl; auto).
  assert (Hv : init northwind = Ok northwind_validator) by reflexivity.
  destruct (@table_name_variants northwind _ _ Hc Hin Hv) as (_ & H1 & H2 & H3 & _).
  exact (conj Hv (conj H1 (conj H2 H3))).
Defined.

End TableMatching.

(** ** Common table expressions *)

Section CteNames.

Import PyStr SQLValidator.

Lemma length_append (a b : string) :
  String.length (a ++ b) = (String.length a + String.length b)%nat.
Proof. induction a; simpl; congruence. Qed.

Lemma append_inv_tail (a b c : string) : a ++ c = b ++ c -> a = b.
Proof.
  revert b; induction a as [|x a IH]; intros [|y b] H; simpl in H.
  - reflexivity.
  - apply (f_equal String.length) in H. simpl in H.
    rewrite length_append in H. lia.
  - apply (f_equal String.length) in H. simpl in H.
    rewrite length_append in H. lia.
  - injection H as -> H. f_equal. now apply IH.
Qed.

Lemma table_error_inj (v : SQLValidator.t) (t t' : string) :
  table_error v t = table_error v t' -> t = t'.
Proof.
  unfold table_error. intros H. cbn [String.append] in H.
  injection H as H. now apply append_inv_tail in H.
Qed.

Lemma dedup_In (x : string) (l : list string) : In x (dedup l) <-> In x l.
Proof.
  induction l as [|y l IH]; simpl; [tauto|].
  rewrite filter_In, IH, negb_true_iff, String.eqb_neq.
  destruct (string_dec y x) as [->|Hne]; intuition.
Qed.

Lemma check_table_cases (v : SQLValidator.t) (ctes : list string) (t : string) :
  check_table v ctes t = [] \/ check_table v ctes t = [table_error v t].
Proof.
  unfold check_table. destruct (mem _ _); [auto|].
  destruct (found_match _ _); auto.
Qed.

Lemma check_column_not_table (v : SQLValidator.t) (ref : string * string)
  (t e : string) :
  In e (check_column v ref) -> e <> table_error v t.
Proof.
  unfold check_column, table_error.
  destruct (existsb _ _); [intros []|].
  destruct (find_similar_columns _ _); intros [<- | []]; discriminate.
Qed.

End CteNames.

(** ** The CTE pattern on a declaration *)

Section Greedy.

Import PyStr Re.

(** The loop that runs [Star r']. *)
Definition star_loop (r' : regex)
  (k : option ascii -> string -> caps -> option found) :=
  fix loop (n : nat) (before : option ascii) (s : string) (cs : caps)
    : option found :=
    match n with
    | O => k before s cs
    | S n' =>
        match run r' before s cs
                (fun b' s' cs' =>
                   if Nat.ltb (String.length s') (String.length s)
                   then loop n' b' s' cs' else None) with
        | Some x => Some x
        | None => k before s cs
        end
    end.

Lemma run_star (r' : regex) (before : option ascii) (s : string) (cs : caps)
  (k : option ascii -> string -> caps -> option found) :
  run (Star r') before s cs k = star_loop r' k (S (String.length s)) before s cs.
Proof. reflexivity. Qed.

(** The longest prefix of [s] made of characters of the class [p], with the
    character before what follows it, and what follows. *)
Fixpoint span (p : ascii -> bool) (before : option ascii) (s : string)
  : option ascii * string :=
  match s with
  | String c r => if p c then span p (Some c) r else (before, s)
  | EmptyString => (before, s)
  end.

Fixpoint span_length (p : ascii -> bool) (s : string) : nat :=
  match s with
  | String c r => if p c then S (span_length p r) else O
  | EmptyString => O
  end.

Lemma span_length_le (p : ascii -> bool) (s : string) :
  (span_length p s <= String.length s)%nat.
Proof. induction s as [|c r IH]; simpl; [lia|]. destruct (p c); lia. Qed.

(** A starred class is greedy and never gives a character back when what
    follows cannot start with a character of the class. *)
Lemma star_class_greedy (p : ascii -> bool)
  (k : option ascii -> string -> caps -> option found) :
  (forall b c s cs, p c = true -> k b (String c s) cs = None) ->
  forall n before s cs,
    (span_length p s <= n)%nat ->
    star_loop (Chr p) k n before s cs
    = k (fst (span p before s)) (snd (span p before s)) cs.
Proof.
  intros Hk. induction n as [|n IH]; intros before s cs Hn.
  - destruct s as [|c r]; simpl in *; [reflexivity|].
    destruct (p c); [lia | reflexivity].
  - destruct s as [|c r]; cbn [star_loop run span]; [reflexivity|].
    destruct (p c) eqn:Ep; [|reflexivity].
    replace (String.length r <? String.length (String c r))%nat with true
      by (symmetry; apply Nat.ltb_lt; simpl; lia).
    fold (star_loop (Chr p) k).
    rewrite IH by (simpl in Hn; rewrite Ep in Hn; lia).
    destruct (k (fst (span p (Some c) r)) (snd (span p (Some c) r)) cs) eqn:E;
      [reflexivity|].
    now apply Hk.
Qed.

Lemma run_star_class (p : ascii -> bool) (before : option ascii) (s : string)
  (cs : caps) (k : option ascii -> string -> caps -> option found) :
  (forall b c s cs, p c = true -> k b (String c s) cs = None) ->
  run (Star (Chr p)) before s cs k
  = k (fst (span p before s)) (snd (span p before s)) cs.
Proof.
  intros Hk. rewrite run_star. apply star_class_greedy; [exact Hk|].
  pose proof (span_length_le p s). lia.
Qed.



Lemma run_seq (r1 r2 : regex) (b : option ascii) (s : string) (cs : caps)
  (k : option ascii -> string -> caps -> option found) :
  run (Seq r1 r2) b s cs k
  = run r1 b s cs (fun b' s' cs' => run r2 b' s' cs' k).
Proof. reflexivity. Qed.

Lemma run_grp (n : nat) (r : regex) (b : option ascii) (s : string) (cs : caps)
  (k : option ascii -> string -> caps -> option found) :
  run (Grp n r) b s cs k
  = run r b s cs
      (fun b' s' cs' =>
         k b' s' ((n, take (String.length s - String.length s') s) :: cs')).
Proof. reflexivity. Qed.

Lemma run_chr (p : ascii -> bool) (b : option ascii) (c : ascii) (s : string)
  (cs : caps) (k : option ascii -> string -> caps -> option found) :
  run (Chr p) b (String c s) cs k = if p c then k (Some c) s cs else None.
Proof. reflexivity. Qed.

Lemma run_bnd (b : option ascii) (s : string) (cs : caps)
  (k : option ascii -> string -> caps -> option found) :
  run Bnd b s cs k = if at_boundary b s then k b s cs else None.
Proof. reflexivity. Qed.

Lemma run_eps (b : option ascii) (s : string) (cs : caps)
  (k : option ascii -> string -> caps -> option found) :
  run Eps b s cs k = k b s cs.
Proof. reflexivity. Qed.

Fixpoint all_word (s : string) : bool :=
  match s with
  | EmptyString => true
  | String c r => (is_word c && all_word r)%bool
  end.

Definition starts_in (p : ascii -> bool) (s : string) : bool :=
  match s with
  | String c _ => p c
  | EmptyString => false
  end.

Fixpoint last_char (before : option ascii) (s : string) : option ascii :=
  match s with
  | EmptyString => before
  | String c r => last_char (Some c) r
  end.

Lemma span_word_prefix (w rest : string) (before : option ascii) :
  all_word w = true -> starts_in is_word rest = false ->
  span is_word before (w ++ rest) = (last_char before w, rest).
Proof.
  revert before; induction w as [|c w IH]; intros before Hw Hr;
    cbn [String.append span all_word last_char] in *.
  - destruct rest as [|c r]; [reflexivity|].
    cbn [span starts_in] in *. now rewrite Hr.
  - apply andb_true_iff in Hw as [Hc Hw]. rewrite Hc. now apply IH.
Qed.

Lemma take_prefix (a b : string) :
  take (String.length (a ++ b) - String.length b) (a ++ b) = a.
Proof.
  rewrite length_append. replace (String.length a + String.length b - String.length b)%nat
    with (String.length a) by lia.
  induction a as [|c a IH]; simpl.
  - now destruct b.
  - now rewrite IH.
Qed.

Lemma word_not_space (c : ascii) : is_word c = true -> is_space c = false.
Proof. destruct c as [[] [] [] [] [] [] [] []]; simpl; intros H; try reflexivity; discriminate. Qed.

Lemma space_not_a (c : ascii) :
  is_space c = true -> Ascii.eqb (lower_char c) (lower_char "A") = false.
Proof. destruct c as [[] [] [] [] [] [] [] []]; simpl; intros H; try reflexivity; discriminate. Qed.

Lemma space_not_paren (c : ascii) : is_space c = true -> Ascii.eqb "(" c = false.
Proof. destruct c as [[] [] [] [] [] [] [] []]; simpl; intros H; try reflexivity; discriminate. Qed.

Lemma word_not_paren (c : ascii) : is_word c = true -> Ascii.eqb "(" c = false.
Proof. destruct c as [[] [] [] [] [] [] [] []]; simpl; intros H; try reflexivity; discriminate. Qed.

Ltac re_step :=
  cbv beta iota;
  repeat (first [rewrite run_seq | rewrite run_grp | rewrite run_eps | rewrite run_bnd];
          cbv beta iota).

(** At a declaration [name AS (], the pattern matches and captures the
    name. *)
Lemma cte_match_at_name (c : ascii) (n rest : string) (b0 : ascii) :
  is_word b0 = false ->
  is_word c = true -> all_word n = true ->
  match_at SQLValidator.cte_pattern (Some b0) (String c n ++ " AS (" ++ rest)
  = Some (Some "("%char, rest, [(1%nat, String c n)]).
Proof.
  intros Hb Hc Hn. unfold match_at, SQLValidator.cte_pattern, seq_of.
  cbn [fold_right String.append lit_ci]. unfold Plus, word, space, chr.
  re_step. unfold at_boundary. rewrite Hb, Hc. cbn [xorb]. re_step.
  rewrite run_chr, Hc. re_step.
  rewrite run_star_class.
  2:{ intros b c' s cs Hc'. re_step. rewrite run_chr.
      now rewrite (word_not_space _ Hc'). }
  pose proof (span_word_prefix n (" AS (" ++ rest) (Some c) Hn eq_refl) as Hsp.
  cbn [String.append] in Hsp. rewrite Hsp. clear Hsp.
  cbn [fst snd].
  pose proof (take_prefix (String c n) (" AS (" ++ rest)) as Ht.
  cbn [String.append] in Ht. rewrite Ht. clear Ht.
  re_step. rewrite run_chr.
  change (is_space " ") with true. re_step.
  rewrite run_star_class.
  2:{ intros b c' s cs Hc'. re_step. rewrite run_chr.
      now rewrite (space_not_a _ Hc'). }
  cbn [span]. change (is_space "A") with false. cbv beta iota. cbn [fst snd].
  re_step. rewrite run_chr.
  change (Ascii.eqb (lower_char "A") (lower_char "A")) with true. re_step.
  rewrite run_chr.
  change (Ascii.eqb (lower_char "S") (lower_char "S")) with true. re_step.
  rewrite run_star_class.
  2:{ intros b c' s cs Hc'. re_step. rewrite run_chr.
      now rewrite (space_not_paren _ Hc'). }
  cbn [span]. change (is_space " ") with true. cbv beta iota.
  change (is_space "(") with false. cbv beta iota. cbn [fst snd].
  re_step. rewrite run_chr.
  change (Ascii.eqb "(" "(") with true. re_step. reflexivity.
Qed.



Lemma cte_no_match_inside_word (b c : ascii) (s : string) :
  is_word b = true -> is_word c = true ->
  match_at SQLValidator.cte_pattern (Some b) (String c s) = None.
Proof.
  intros Hb Hc. unfold match_at, SQLValidator.cte_pattern, seq_of.
  cbn [fold_right]. re_step. unfold at_boundary. now rewrite Hb, Hc.
Qed.

Lemma cte_no_match_at_nonword (b : option ascii) (c : ascii) (s : string) :
  is_word c = false ->
  match_at SQLValidator.cte_pattern b (String c s) = None.
Proof.
  intros Hc. unfold match_at, SQLValidator.cte_pattern, seq_of.
  cbn [fold_right]. unfold Plus, word. re_step.
  destruct (at_boundary b (String c s)); [|reflexivity].
  re_step. now rewrite run_chr, Hc.
Qed.

(** The keyword [WITH] itself is not taken for a name: what follows it is
    the declared name, not [AS (]. *)
Lemma cte_no_match_at_with (c : ascii) (n rest : string) :
  is_word c = true -> all_word n = true ->
  match_at SQLValidator.cte_pattern None
    ("WITH " ++ String c n ++ " AS (" ++ rest) = None.
Proof.
  intros Hc Hn. unfold match_at, SQLValidator.cte_pattern, seq_of.
  cbn [fold_right String.append lit_ci]. unfold Plus, word, space, chr.
  re_step. unfold at_boundary. change (is_word "W") with true. cbn [xorb]. re_step.
  rewrite run_chr. change (is_word "W") with true. re_step.
  rewrite run_star_class.
  2:{ intros b c' s cs Hc'. re_step. rewrite run_chr.
      now rewrite (word_not_space _ Hc'). }
  cbn [span]. change (is_word "I") with true. change (is_word "T") with true.
  change (is_word "H") with true. change (is_word " ") with false.
  cbv beta iota. cbn [fst snd].
  re_step. rewrite run_chr. change (is_space " ") with true. re_step.
  rewrite run_star_class.
  2:{ intros b c' s cs Hc'. re_step. rewrite run_chr.
      now rewrite (space_not_a _ Hc'). }
  cbn [span]. rewrite (word_not_space _ Hc). cbv beta iota. cbn [fst snd].
  re_step. rewrite run_chr.
  destruct (Ascii.eqb (lower_char c) (lower_char "A")); [|reflexivity].
  re_step. destruct n as [|c2 n2]; cbn [String.append].
  - rewrite run_chr. reflexivity.
  - rewrite run_chr.
    destruct (Ascii.eqb (lower_char c2) (lower_char "S")); [|reflexivity].
    re_step. rewrite run_star_class.
    2:{ intros b c' s cs Hc'. re_step. rewrite run_chr.
        now rewrite (space_not_paren _ Hc'). }
    cbn [all_word] in Hn. apply andb_true_iff in Hn as [_ Hn].
    destruct n2 as [|c3 n3]; cbn [String.append span].
    + change (is_space " ") with true. change (is_space "A") with false.
      cbv beta iota. cbn [fst snd]. re_step. rewrite run_chr. reflexivity.
    + cbn [all_word] in Hn. apply andb_true_iff in Hn as [Hc3 _].
      rewrite (word_not_space _ Hc3). cbv beta iota. cbn [fst snd].
      re_step. rewrite run_chr. now rewrite (word_not_paren _ Hc3).
Qed.

Lemma scan_hit (r : regex) (f : nat) (before b' : option ascii)
  (s s' skipped : string) (cs : caps) :
  match_at r before s = Some (b', s', cs) ->
  (String.length s' < String.length s)%nat ->
  fst (scan (S f) r before s skipped) = (skipped, cs) :: fst (scan f r b' s' EmptyString).
Proof.
  intros Hm Hl. cbn [scan]. rewrite Hm.
  replace (String.length s' <? String.length s)%nat with true
    by (symmetry; now apply Nat.ltb_lt).
  now destruct (scan f r b' s' EmptyString).
Qed.

Lemma scan_miss (r : regex) (f : nat) (before : option ascii) (c : ascii)
  (s skipped : string) :
  match_at r before (String c s) = None ->
  scan (S f) r before (String c s) skipped
  = scan f r (Some c) s (skipped ++ String c EmptyString).
Proof. intros Hm. cbn [scan]. now rewrite Hm. Qed.

Lemma with_found (rest : string) :
  search SQLValidator.with_pattern ("WITH " ++ rest) = true.
Proof.
  unfold search, finditer. cbn [String.append String.length].
  erewrite scan_hit; [reflexivity | reflexivity | simpl; lia].
Qed.

Lemma cte_name_found (c : ascii) (n rest : string) :
  is_word c = true -> all_word n = true ->
  In (String c n)
     (findall1 SQLValidator.cte_pattern ("WITH " ++ String c n ++ " AS (" ++ rest)).
Proof.
  intros Hc Hn. unfold findall1, finditer.
  pose proof (cte_no_match_at_with c n rest Hc Hn) as H0.
  cbn [String.append String.length] in *.
  rewrite scan_miss by exact H0.
  rewrite scan_miss by (now apply cte_no_match_inside_word).
  rewrite scan_miss by (now apply cte_no_match_inside_word).
  rewrite scan_miss by (now apply cte_no_match_inside_word).
  rewrite scan_miss by (now apply cte_no_match_at_nonword).
  pose proof (@cte_match_at_name c n rest " "%char eq_refl Hc Hn) as Hm.
  cbn [String.append] in Hm.
  erewrite scan_hit; [| exact Hm |].
  - left. reflexivity.
  - cbn [String.length]. rewrite length_append. simpl. lia.
Qed.

End Greedy.

(** ** CTE names are not missing tables *)

Section CteTables.

Import PyStr SQLValidator.

Lemma cte_reference_skipped (v : SQLValidator.t) (sql name table : string) :
  Re.search with_pattern sql = true ->
  In name (Re.findall1 cte_pattern sql) ->
  lower (strip table) = lower name ->
  In name (cte_names_of sql)
  /\ check_table v (cte_names_of sql) table = []
  /\ ~ In (table_error v table) (errors (validate_sql v sql)).
Proof.
  intros Hw Hn Ht.
  assert (Hcte : In name (cte_names_of sql)).
  { unfold cte_names_of. rewrite Hw. now apply dedup_In. }
  assert (Hskip : check_table v (cte_names_of sql) table = []).
  { unfold check_table.
    replace (mem (lower (strip table)) (map lower (cte_names_of sql))) with true;
      [reflexivity|].
    symmetry. apply mem_spec. rewrite Ht. now apply in_map. }
  repeat split; try assumption.
  unfold validate_sql. destruct (_ || _)%bool; simpl; [tauto|].
  rewrite in_app_iff. intros [H | H].
  - unfold table_errors in H. apply in_flat_map in H as [t' [_ Hin]].
    destruct (check_table_cases v (cte_names_of sql) t') as [E | E];
      rewrite E in Hin; [destruct Hin|].
    destruct Hin as [Heq | []]. apply table_error_inj in Heq. subst t'.
    rewrite Hskip in E. discriminate.
  - unfold column_errors in H. apply in_flat_map in H as [ref [_ Hin]].
    apply (@check_column_not_table v ref table) in Hin. now apply Hin.
Qed.

(** C5.  When the SQL holds the word [WITH], every identifier directly
    followed by [AS (] is collected as a CTE name, and a table reference
    equal to such a name (up to case) is skipped by the existence check: no
    error of the validation reports it as a missing table, whatever tables
    the schema has.  In particular this holds for the name declared by SQL
    of the form [WITH name AS (...], for every name made of word
    characters. *)
Theorem cte_names_not_missing :
  (forall v sql name table,
      Re.search with_pattern sql = true ->
      In name (Re.findall1 cte_pattern sql) ->
      lower (strip table) = lower name ->
      In name (cte_names_of sql)
      /\ check_table v (cte_names_of sql) table = []
      /\ ~ In (table_error v table) (errors (validate_sql v sql)))
  /\ (forall v c n rest table,
        is_word c = true -> all_word n = true ->
        lower (strip table) = lower (String c n) ->
        In (String c n) (cte_names_of ("WITH " ++ String c n ++ " AS (" ++ rest))
        /\ ~ In (table_error v table)
                (errors (validate_sql v ("WITH " ++ String c n ++ " AS (" ++ rest)))).
Proof.
  split; [exact cte_reference_skipped|].
  intros v c n rest table Hc Hn Ht.
  destruct (@cte_reference_skipped v ("WITH " ++ String c n ++ " AS (" ++ rest)
              (String c n) table)
    as (H1 & _ & H3);
    [apply with_found | now apply cte_name_found | exact Ht | now split].
Qed.

(** A validator over a schema without tables. *)
Definition empty_validator : SQLValidator.t :=
  {| valid_tables := []; valid_columns := [] |}.

Definition cte_query : string :=
  "WITH recent AS (SELECT 1 AS n) SELECT n FROM recent JOIN Nope".

Lemma cte_names_not_missing_witness :
  errors (validate_sql empty_validator cte_query)
  = ["Table 'Nope' does not exist in schema. Valid tables: "]
  /\ ~ In (table_error empty_validator "recent")
          (errors (validate_sql empty_validator cte_query)).
Proof.
  split; [reflexivity|].
  apply (proj2 cte_names_not_missing empty_validator "r"%char "ecent"
               "SELECT 1 AS n) SELECT n FROM recent JOIN Nope" "recent");
    reflexivity.
Defined.

End CteTables.


(** ** The workflow: steps and the repair loop *)

Lemma run_step (f : nat) (world : nat -> Env) (tick : nat) (n : Node) (st : AgentState) :
  run (S f) world tick n st
  = match node_fn n (world tick) st with
    | Raise m => ([n], Raised m)
    | Ok u =>
        match next_node n (apply_update st u) with
        | Raise m => ([n], Raised m)
        | Ok None => ([n], Finished (apply_update st u))
        | Ok (Some n') =>
            (n :: fst (run f world (S tick) n' (apply_update st u)),
             snd (run f world (S tick) n' (apply_update st u)))
        end
    end.
Proof.
  simpl. destruct (node_fn n (world tick) st) as [u|m]; [|reflexivity].
  destruct (next_node n (apply_update st u)) as [[n'|]|m]; try reflexivity.
  now destruct (run f world (S tick) n' (apply_update st u)).
Qed.

Lemma errors_nonempty (l : list string) :
  negb (Nat.eqb (List.length l) 0) = true <-> l <> [].
Proof. destruct l; simpl; split; intros; congruence. Qed.

Lemma check_execution_repair (st : AgentState) :
  check_execution st = "repair" <-> errors st <> [] /\ repair_count st < 2.
Proof.
  unfold check_execution. rewrite <- errors_nonempty, <- Z.ltb_lt.
  destruct (negb _), (repair_count st <? 2); simpl;
    split; intros; try discriminate; intuition discriminate.
Qed.

Lemma next_after_executor (st : AgentState) :
  next_node executor st
  = Ok (Some (if (negb (Nat.eqb (List.length (errors st)) 0)
                  && (repair_count st <? 2))%bool
              then repair else synthesizer)).
Proof.
  unfold next_node, check_execution.
  now destruct (negb _ && _)%bool.
Qed.

Lemma executor_node_total (env : Env) (st : AgentState) :
  exists u, executor_node env st = Ok u
            /\ u_repair_count u = None /\ u_strategy u = None
            /\ u_sql_query u = None.
Proof.
  unfold executor_node. destruct (truthy_error _); eexists; repeat split.
Qed.

Lemma sql_generator_node_keeps (env : Env) (st : AgentState) (u : Update) :
  sql_generator_node env st = Ok u ->
  u_repair_count u = None /\ u_strategy u = None.
Proof.
  unfold sql_generator_node.
  destruct (SQLiteTool.get_schema _ _); simpl; [|discriminate].
  destruct (sql_lm _ _ _); simpl; [|discriminate].
  destruct (SQLValidator.init _); simpl; [|discriminate].
  destruct (negb _); intros H; injection H as <-; auto.
Qed.

Lemma repair_node_update (env : Env) (st : AgentState) (u : Update) :
  repair_node env st = Ok u ->
  u_repair_count u = Some (repair_count st + 1) /\ u_errors u = Some [].
Proof.
  unfold repair_node. destruct (_ && _)%bool; simpl.
  - destruct (SQLValidator.init _); simpl; [|discriminate].
    intros H; injection H as <-; auto.
  - intros H; injection H as <-; auto.
Qed.

(** How a run may end: at the synthesizer, or with the exception some node
    raised; never for lack of steps. *)
Definition ends_well (world : nat -> Env) (r : list Node * Outcome) : Prop :=
  match snd r with
  | Finished _ => last (fst r) router = synthesizer
  | Raised m => exists k n st, node_fn n (world k) st = Raise m
  | OutOfFuel => False
  end.

Definition sql_generations (r : list Node * Outcome) : nat :=
  count_occ Node_eq_dec (fst r) sql_generator.

Lemma run_synthesizer (f : nat) (world : nat -> Env) (tick : nat) (st : AgentState) :
  ends_well world (run (S f) world tick synthesizer st)
  /\ fst (run (S f) world tick synthesizer st) = [synthesizer].
Proof.
  rewrite run_step. destruct (node_fn _ _ _) as [u|m] eqn:E.
  - simpl. split; reflexivity.
  - split; [|reflexivity]. unfold ends_well; simpl. eauto.
Qed.

Lemma ends_well_cons (world : nat -> Env) (n : Node) (tr : list Node) (out : Outcome) :
  tr <> [] -> ends_well world (tr, out) -> ends_well world (n :: tr, out).
Proof.
  unfold ends_well; simpl. destruct out; auto.
  destruct tr; [congruence | auto].
Qed.

Lemma run_nonempty (f : nat) (world : nat -> Env) (tick : nat) (n : Node) (st : AgentState) :
  fst (run (S f) world tick n st) <> [].
Proof.
  rewrite run_step. destruct (node_fn _ _ _); [|discriminate].
  destruct (next_node _ _) as [[?|]|]; discriminate.
Qed.

Lemma run_from_sql_generator (k : nat) :
  forall fuel world tick st,
    2 - repair_count st <= Z.of_nat k ->
    (3 * k + 3 <= fuel)%nat ->
    ends_well world (run fuel world tick sql_generator st)
    /\ (sql_generations (run fuel world tick sql_generator st) <= k + 1)%nat.
Proof.
  induction k as [|k IH]; intros fuel world tick st Hrc Hfuel;
    (destruct fuel as [|[|[|f]]]; [lia | lia | lia |]);
    unfold sql_generations;
    rewrite run_step; change (node_fn sql_generator) with sql_generator_node;
    (destruct (sql_generator_node (world tick) st) as [ug|m] eqn:Eg;
     [| split; [unfold ends_well; simpl; exists tick, sql_generator, st; exact Eg
               | simpl; lia]]);
    destruct (sql_generator_node_keeps _ _ Eg) as [Hg _];
    cbn [next_node fst snd];
    rewrite run_step; change (node_fn executor) with executor_node;
    destruct (executor_node_total (world (S tick)) (apply_update st ug))
      as (ux & Ex & Hx & _); rewrite Ex;
    rewrite next_after_executor;
    set (st2 := apply_update (apply_update st ug) ux);
    assert (Hrc2 : repair_count st2 = repair_count st)
      by (unfold st2; simpl; rewrite Hx, Hg; reflexivity).
  - (* no repair left *)
    replace (repair_count st2 <? 2) with false
      by (symmetry; apply Z.ltb_ge; lia).
    rewrite andb_false_r.
    destruct (run_synthesizer f world (S (S tick)) st2) as [Hw Ht].
    split.
    + cbn [fst snd]. unfold ends_well in *. cbn [fst snd].
      destruct (snd (run (S f) world (S (S tick)) synthesizer st2)); auto.
      rewrite Ht. reflexivity.
    + cbn [fst snd]. rewrite Ht. simpl. lia.
  - destruct (negb _ && _)%bool eqn:Ec.
    + (* repair, then generate again *)
      rewrite run_step. change (node_fn repair) with repair_node.
      destruct (repair_node (world (S (S tick))) st2) as [ur|m] eqn:Er.
      * destruct (repair_node_update _ _ Er) as [Hr _].
        cbn [next_node fst snd].
        destruct (IH f world (S (S (S tick))) (apply_update st2 ur)) as [Hw Hc].
        { cbn [apply_update repair_count]. rewrite Hr. cbn [or_keep]. lia. }
        { lia. }
        split.
        -- unfold ends_well in *. cbn [fst snd].
           destruct (snd (run f world (S (S (S tick))) sql_generator
                            (apply_update st2 ur))) eqn:Eo; auto.
           assert (Hne : fst (run f world (S (S (S tick))) sql_generator
                               (apply_update st2 ur)) <> []).
           { destruct f; [simpl in Eo; discriminate | apply run_nonempty]. }
           destruct (fst (run f world (S (S (S tick))) sql_generator
                            (apply_update st2 ur))) eqn:Et; [congruence|].
           exact Hw.
        -- unfold sql_generations in Hc. cbn [fst snd count_occ].
           destruct (Node_eq_dec sql_generator sql_generator); [|congruence].
           destruct (Node_eq_dec executor sql_generator); [discriminate|].
           destruct (Node_eq_dec repair sql_generator); [discriminate|].
           lia.
      * split.
        -- unfold ends_well. cbn [fst snd]. exists (S (S tick)), repair, st2. exact Er.
        -- cbn [fst snd]. simpl. lia.
    + destruct (run_synthesizer f world (S (S tick)) st2) as [Hw Ht].
      split.
      * cbn [fst snd]. unfold ends_well in *. cbn [fst snd].
        destruct (snd (run (S f) world (S (S tick)) synthesizer st2)); auto.
        rewrite Ht. reflexivity.
      * cbn [fst snd]. rewrite Ht. simpl. lia.
Qed.

Lemma router_node_update (env : Env) (st : AgentState) (u : Update) :
  router_node env st = Ok u ->
  exists s, router_lm env (question st) = Ok s
            /\ u = strategy_update (classify s).
Proof.
  unfold router_node. destruct (router_lm env (question st)) as [s|m]; simpl;
    [|discriminate].
  intros H; injection H as <-. exists s. split; reflexivity.
Qed.

Lemma next_after_router (st : AgentState) :
  strategy st = "hybrid" \/ strategy st = "sql" \/ strategy st = "rag" ->
  next_node router st
  = Ok (Some (if String.eqb (strategy st) "sql" then planner else retriever)).
Proof.
  unfold next_node, route_strategy.
  intros [-> | [-> | ->]]; reflexivity.
Qed.

Lemma next_after_retriever (st : AgentState) :
  next_node retriever st
  = Ok (Some (if String.eqb (strategy st) "rag" then synthesizer else planner)).
Proof.
  unfold next_node, route_retriever.
  now destruct (String.eqb (strategy st) "rag").
Qed.

Lemma retriever_node_update (env : Env) (st : AgentState) (u : Update) :
  retriever_node env st = Ok u ->
  u_repair_count u = None /\ u_strategy u = None /\ u_sql_query u = None.
Proof.
  unfold retriever_node. destruct (Retriever.init _ _); simpl; [|discriminate].
  intros H; injection H as <-; auto.
Qed.

Lemma ends_well_step (world : nat -> Env) (n : Node) (f : nat) (tick : nat)
  (n' : Node) (st : AgentState) :
  ends_well world (run (S f) world tick n' st) ->
  ends_well world (n :: fst (run (S f) world tick n' st),
                   snd (run (S f) world tick n' st)).
Proof.
  intros H. apply ends_well_cons; [apply run_nonempty|].
  now destruct (run (S f) world tick n' st).
Qed.

Lemma run_from_planner (f : nat) (world : nat -> Env) (tick : nat) (st : AgentState) :
  repair_count st = 0 ->
  (9 <= f)%nat ->
  ends_well world (run (S f) world tick planner st)
  /\ (sql_generations (run (S f) world tick planner st) <= 3)%nat.
Proof.
  intros Hrc Hf. rewrite run_step. cbn [node_fn planner_node next_node].
  destruct f as [|f]; [lia|].
  destruct (@run_from_sql_generator 2 (S f) world (S tick) (apply_update st no_update))
    as [Hw Hc];
    [cbn [apply_update repair_count no_update u_repair_count or_keep];
     rewrite Hrc; change (Z.of_nat 2) with 2; lia | lia |].
  split; [now apply ends_well_step|].
  unfold sql_generations in *. cbn [fst snd count_occ].
  destruct (Node_eq_dec planner sql_generator); [discriminate | exact Hc].
Qed.

Lemma run_from_router (fuel : nat) (world : nat -> Env) (q : Question) :
  (12 <= fuel)%nat ->
  ends_well world (run fuel world 0 router (initial_state q))
  /\ (sql_generations (run fuel world 0 router (initial_state q)) <= 3)%nat.
Proof.
  intros Hf. destruct fuel as [|[|[|f]]]; try lia.
  rewrite run_step. change (node_fn router) with router_node.
  destruct (router_node (world 0%nat) (initial_state q)) as [u|m] eqn:Er.
  2:{ split; [unfold ends_well; simpl; exists 0%nat, router, (initial_state q); exact Er
            | unfold sql_generations; simpl; lia]. }
  apply router_node_update in Er as (s & _ & ->).
  set (st1 := apply_update (initial_state q) (strategy_update (classify s))).
  assert (Hs1 : strategy st1 = classify s) by reflexivity.
  assert (Hrc1 : repair_count st1 = 0) by reflexivity.
  rewrite next_after_router by (rewrite Hs1; apply classify_cases).
  destruct (String.eqb (strategy st1) "sql") eqn:Esql.
  - destruct (@run_from_planner (S f) world 1%nat st1 Hrc1) as [Hw Hc]; [lia|].
    split; [now apply ends_well_step|].
    unfold sql_generations in *. cbn [fst snd count_occ].
    destruct (Node_eq_dec router sql_generator); [discriminate | exact Hc].
  - rewrite run_step. change (node_fn retriever) with retriever_node.
    destruct (retriever_node (world 1%nat) st1) as [u|m] eqn:Et.
    2:{ split; [unfold ends_well; simpl; exists 1%nat, retriever, st1; exact Et
              | unfold sql_generations; simpl; lia]. }
    destruct (retriever_node_update _ _ Et) as (Hu1 & Hu2 & _).
    rewrite next_after_retriever.
    destruct (String.eqb (strategy (apply_update st1 u)) "rag").
    + destruct (run_synthesizer f world 2%nat (apply_update st1 u)) as [Hw Ht].
      split.
      * cbn [fst snd].
        apply ends_well_cons; [discriminate|].
        apply ends_well_cons; [apply run_nonempty|].
        now destruct (run (S f) world 2%nat synthesizer (apply_update st1 u)).
      * unfold sql_generations. cbn [fst snd]. rewrite Ht. simpl. lia.
    + destruct (@run_from_planner f world 2%nat (apply_update st1 u)) as [Hw Hc].
      { cbn [apply_update repair_count]. rewrite Hu1. exact Hrc1. }
      { lia. }
      split.
      * cbn [fst snd].
        apply ends_well_cons; [discriminate|].
        apply ends_well_cons; [apply run_nonempty|].
        now destruct (run (S f) world 2%nat planner (apply_update st1 u)).
      * unfold sql_generations in *. cbn [fst snd count_occ].
        destruct (Node_eq_dec router sql_generator); [discriminate|].
        destruct (Node_eq_dec retriever sql_generator); [discriminate | exact Hc].
Qed.

Lemma next_executor_repair (st : AgentState) :
  next_node executor st = Ok (Some repair)
  <-> errors st <> [] /\ repair_count st < 2.
Proof.
  rewrite next_after_executor, <- check_execution_repair.
  unfold check_execution. destruct (_ && _)%bool; split; intros H;
    try reflexivity; discriminate.
Qed.

(** An invocation from the driver's initial state stays within the
    engine's step bound. *)
Lemma invoke_ends_well (world : nat -> Env) (q : Question) :
  ends_well world (invoke_trace world (initial_state q)).
Proof.
  unfold invoke_trace, recursion_limit. apply run_from_router. lia.
Qed.

(** C1.  After the executor the run goes to the repair node exactly when the
    errors list is not empty and [repair_count] is below 2, and to the
    synthesizer otherwise; the repair node adds exactly one to
    [repair_count]; hence, for every question and whatever the model and the
    database answer, a run needs no more than 12 steps, enters the SQL
    generator at most 3 times, and ends at the synthesizer unless a node
    raised on the way. *)
Theorem repair_loop_bounded :
  (forall st, next_node executor st = Ok (Some repair)
              <-> errors st <> [] /\ repair_count st < 2)
  /\ (forall st, ~ (errors st <> [] /\ repair_count st < 2) ->
                 next_node executor st = Ok (Some synthesizer))
  /\ (forall env st u, repair_node env st = Ok u ->
                       repair_count (apply_update st u) = repair_count st + 1)
  /\ (forall world q fuel, (12 <= fuel)%nat ->
        ends_well world (run fuel world 0 router (initial_state q))
        /\ (sql_generations (run fuel world 0 router (initial_state q)) <= 3)%nat).
Proof.
  pose proof next_executor_repair as Hiff.
  split; [exact Hiff|]. split; [|split].
  - intros st H. rewrite <- Hiff in H. rewrite next_after_executor in *.
    destruct (_ && _)%bool; [now elim H | reflexivity].
  - intros env st u H. apply repair_node_update in H as [H _].
    cbn [apply_update repair_count]. now rewrite H.
  - intros world q fuel. apply run_from_router.
Qed.

(** ** The executor *)

Definition failed_result (msg : string) : SQLiteTool.QueryResult :=
  {| SQLiteTool.columns := []; SQLiteTool.rows := []; SQLiteTool.error := Some msg |}.

(** The reading of C6 in which the executor appends: after a failed
    execution the errors list is the earlier list followed by the message. *)
Definition error_appended (env : Env) (st : AgentState) (msg : string) : Prop :=
  SQLiteTool.db_run (db env) (sql_query st) = Raise msg ->
  exists u, executor_node env st = Ok u
            /\ sql_result (apply_update st u) = Some (failed_result msg)
            /\ errors (apply_update st u) = (errors st ++ [msg])%list.

Definition demo_docs : list (string * string) :=
  [("policy.md", "# Returns
Items can be returned within 30 days.

## Shipping
Orders ship within 2 days.")].

(** A world in which the model keeps asking for a table that does not exist
    and every statement fails. *)
Definition stubborn_env : Env :=
  {| router_lm := fun _ => Ok "SQL";
     sql_lm := fun _ _ => Ok "SELECT * FROM Nope";
     synth_lm := fun _ _ _ _ _ => Ok (Some "unknown", "The query failed.");
     docs := Ok demo_docs;
     tfidf := fun _ => Ok (fun _ i => if Nat.eqb i 0 then 1 # 2 else 1 # 4);
     db := northwind |}.

Definition demo_question : Question :=
  {| q_id := "q1"; q_question := "How many orders were placed?";
     q_format_hint := "int" |}.

(** The state the SQL generator is entered with when the router answered
    [sql], and the state it leaves in [stubborn_env]. *)
Definition routed_state : AgentState :=
  apply_update (initial_state demo_question) (strategy_update "sql").

Definition state_after_bad_generation : AgentState :=
  match sql_generator_node stubborn_env routed_state with
  | Ok u => apply_update routed_state u
  | Raise _ => routed_state
  end.

Example state_after_bad_generation_fields :
  sql_query state_after_bad_generation = "SELECT * FROM Nope"
  /\ errors state_after_bad_generation
     = ["Table 'Nope' does not exist in schema. Valid tables: order details, orders"]
  /\ repair_count state_after_bad_generation = 0.
Proof. repeat split. Qed.

(** C6, as stated, fails: with a validation error already recorded, a failed
    execution leaves only its own message in the errors list. *)
Lemma executor_does_not_append :
  ~ error_appended stubborn_env state_after_bad_generation "no such table: Nope".
Proof.
  intros H. destruct (H eq_refl) as (u & Hu & _ & He).
  vm_compute in Hu. injection Hu as <-. vm_compute in He. discriminate.
Qed.

(** C6, amended.  The executor node never raises and always hands the run
    on to the repair node or to the synthesizer.  When running the SQL
    raises with message [msg], the result record has no columns, no rows
    and [msg] as its error, it becomes the state's [sql_result], and, for a
    non-empty [msg], the state's errors list becomes exactly [[msg]]
    (earlier entries are overwritten). *)
Theorem executor_catches_failure :
  (forall env st, exists u n,
      executor_node env st = Ok u
      /\ next_node executor (apply_update st u) = Ok (Some n)
      /\ (n = repair \/ n = synthesizer))
  /\ (forall env st msg,
        SQLiteTool.db_run (db env) (sql_query st) = Raise msg ->
        SQLiteTool.execute_query (db env) (sql_query st) = failed_result msg
        /\ exists u, executor_node env st = Ok u
             /\ sql_result (apply_update st u) = Some (failed_result msg)
             /\ (msg <> EmptyString -> errors (apply_update st u) = [msg])).
Proof.
  split.
  - intros env st. destruct (executor_node_total env st) as (u & Hu & _).
    exists u. eexists. split; [exact Hu|]. rewrite next_after_executor.
    split; [reflexivity|]. destruct (_ && _)%bool; auto.
  - intros env st msg H.
    assert (Hq : SQLiteTool.execute_query (db env) (sql_query st) = failed_result msg).
    { unfold SQLiteTool.execute_query. now rewrite H. }
    split; [exact Hq|].
    unfold executor_node. rewrite Hq. cbn [failed_result SQLiteTool.error].
    destruct msg as [|c m].
    + eexists. split; [reflexivity|]. split; [reflexivity | congruence].
    + eexists. split; [reflexivity|]. split; reflexivity.
Qed.

Lemma executor_catches_failure_witness :
  SQLiteTool.db_run (db stubborn_env) (sql_query state_after_bad_generation)
  = Raise "no such table: Nope"
  /\ exists u, executor_node stubborn_env state_after_bad_generation = Ok u
       /\ sql_result (apply_update state_after_bad_generation u)
          = Some (failed_result "no such table: Nope")
       /\ errors (apply_update state_after_bad_generation u)
          = ["no such table: Nope"].
Proof.
  split; [reflexivity|].
  destruct (proj2 executor_catches_failure stubborn_env state_after_bad_generation
              "no such table: Nope" eq_refl) as (_ & u & Hu & Hr & He).
  exists u. split; [exact Hu|]. split; [exact Hr|]. apply He. discriminate.
Defined.

(** ** Successful execution *)

Definition with_sql_result (st : AgentState) (r : SQLiteTool.QueryResult)
  : AgentState :=
  {| question := question st; format_hint := format_hint st;
     strategy := strategy st; context := context st; schema := schema st;
     sql_query := sql_query st; sql_result := Some r;
     final_answer := final_answer st; explanation := explanation st;
     citations := citations st; errors := errors st;
     repair_count := repair_count st |}.

Lemma sql_generator_errors (env : Env) (st : AgentState) (u : Update)
  (errs : list string) :
  sql_generator_node env st = Ok u -> u_errors u = Some errs -> errs <> [].
Proof.
  unfold sql_generator_node.
  destruct (SQLiteTool.get_schema _ _); simpl; [|discriminate].
  destruct (sql_lm _ _ _); simpl; [|discriminate].
  destruct (SQLValidator.init _) as [v|]; simpl; [|discriminate].
  destruct (SQLValidator.validate_sql v _) as [ok es] eqn:Ev.
  cbn [SQLValidator.valid SQLValidator.errors].
  destruct ok; cbn [negb]; intros H; injection H as <-; cbn [u_errors];
    intros He; [discriminate|]. injection He as <-.
  unfold SQLValidator.validate_sql in Ev. destruct (_ || _)%bool; [discriminate|].
  injection Ev as Hok <-. intros E. rewrite E in Hok. discriminate.
Qed.

(** C10.  When the SQL runs without error, the executor node changes the
    [sql_result] field and nothing else; in particular the errors list stays,
    so that with errors recorded and [repair_count] below 2 the run goes on
    to the repair node.  Hence errors the SQL generator recorded at
    validation survive a successful execution and lead to a repair. *)
Theorem executor_success_frame :
  (forall env st cols rws,
      SQLiteTool.db_run (db env) (sql_query st) = Ok (cols, rws) ->
      exists u, executor_node env st = Ok u
        /\ apply_update st u
           = with_sql_result st {| SQLiteTool.columns := cols;
                                   SQLiteTool.rows := rws;
                                   SQLiteTool.error := None |}
        /\ (errors st <> [] -> repair_count st < 2 ->
            next_node executor (apply_update st u) = Ok (Some repair)))
  /\ (forall env_g env_x st0 ug errs cols rws,
        sql_generator_node env_g st0 = Ok ug ->
        u_errors ug = Some errs ->
        SQLiteTool.db_run (db env_x) (sql_query (apply_update st0 ug)) = Ok (cols, rws) ->
        exists ux, executor_node env_x (apply_update st0 ug) = Ok ux
          /\ errors (apply_update (apply_update st0 ug) ux) = errs
          /\ errs <> []
          /\ (repair_count st0 < 2 ->
              next_node executor (apply_update (apply_update st0 ug) ux)
              = Ok (Some repair))).
Proof.
  assert (H1 : forall env st cols rws,
      SQLiteTool.db_run (db env) (sql_query st) = Ok (cols, rws) ->
      exists u, executor_node env st = Ok u
        /\ apply_update st u
           = with_sql_result st {| SQLiteTool.columns := cols;
                                   SQLiteTool.rows := rws;
                                   SQLiteTool.error := None |}
        /\ (errors st <> [] -> repair_count st < 2 ->
            next_node executor (apply_update st u) = Ok (Some repair))).
  { intros env st cols rws H. unfold executor_node, SQLiteTool.execute_query.
    rewrite H. cbn [SQLiteTool.error truthy_error].
    eexists. split; [reflexivity|]. split; [reflexivity|].
    intros He Hrc. apply next_executor_repair. split; assumption. }
  split; [exact H1|].
  intros env_g env_x st0 ug errs cols rws Hg He Hx.
  destruct (H1 _ _ _ _ Hx) as (ux & Hux & Hst & Hnext).
  destruct (sql_generator_node_keeps _ _ Hg) as [Hrc _].
  assert (Herrs : errors (apply_update st0 ug) = errs)
    by (cbn [apply_update errors]; now rewrite He).
  exists ux. split; [exact Hux|]. rewrite Hst. cbn [with_sql_result errors].
  split; [exact Herrs|]. split; [exact (sql_generator_errors _ _ Hg He)|].
  intros Hlt. rewrite <- Hst. apply Hnext.
  - rewrite Herrs. exact (sql_generator_errors _ _ Hg He).
  - cbn [apply_update repair_count]. now rewrite Hrc.
Qed.

(** A world in which the generated SQL runs, although the validator reads
    the literal [1.5] as a column reference and reports it. *)
Definition lenient_env : Env :=
  {| router_lm := fun _ => Ok "sql";
     sql_lm := fun _ _ => Ok "SELECT 1.5";
     synth_lm := fun _ _ _ _ _ => Ok (Some "1.5", "A constant.");
     docs := Ok demo_docs;
     tfidf := fun _ => Ok (fun _ i => if Nat.eqb i 0 then 1 # 2 else 1 # 4);
     db := {| SQLiteTool.db_catalog := Ok northwind_catalog;
              SQLiteTool.db_run :=
                fun _ => Ok (["1.5"], [[SQLiteTool.SqlReal (3 # 2)]]) |} |}.

Definition lenient_generation : Update :=
  match sql_generator_node lenient_env routed_state with
  | Ok u => u
  | Raise _ => no_update
  end.

Lemma executor_success_frame_witness :
  sql_generator_node lenient_env routed_state = Ok lenient_generation
  /\ exists ux,
       executor_node lenient_env (apply_update routed_state lenient_generation) = Ok ux
       /\ errors (apply_update (apply_update routed_state lenient_generation) ux)
          = ["Column '5' not found in any table schema"]
       /\ next_node executor
            (apply_update (apply_update routed_state lenient_generation) ux)
          = Ok (Some repair).
Proof.
  split; [reflexivity|].
  destruct (proj2 executor_success_frame lenient_env lenient_env routed_state
              lenient_generation
              ["Column '5' not found in any table schema"]
              ["1.5"] [[SQLiteTool.SqlReal (3 # 2)]]
              eq_refl eq_refl eq_refl) as (ux & Hux & He & _ & Hn).
  exists ux. split; [exact Hux|]. split; [exact He|]. apply Hn. reflexivity.
Defined.

Lemma repair_loop_bounded_witness :
  (12 <= 12)%nat
  /\ ends_well (fun _ => stubborn_env)
       (run 12 (fun _ => stubborn_env) 0 router (initial_state demo_question))
  /\ (sql_generations
        (run 12 (fun _ => stubborn_env) 0 router (initial_state demo_question))
      <= 3)%nat.
Proof.
  split; [lia|].
  apply (proj2 (proj2 (proj2 repair_loop_bounded))). lia.
Defined.

(** The bound is reached: in [stubborn_env] the run generates SQL three
    times before it synthesizes. *)
Example stubborn_run_trace :
  fst (run 12 (fun _ => stubborn_env) 0 router (initial_state demo_question))
  = [router; planner; sql_generator; executor; repair;
     sql_generator; executor; repair; sql_generator; executor; synthesizer].
Proof. vm_compute. reflexivity. Qed.

(** ** The retrieval-only route *)

Section RagRoute.

Import Retriever.

Lemma search_In (r : Retriever.t) (query : string) (top_k : Z) (s : Scored) :
  In s (search r query top_k) ->
  In (chunk s) (chunks r) /\ Qle_bool (score s) 0 = false.
Proof.
  unfold search. destruct (vectorizer r) as [sim|]; [|intros []].
  destruct (chunks r) as [|c0 cs] eqn:Ec; [intros []|]. rewrite <- Ec.
  intros H. apply in_flat_map in H as [idx [_ H]].
  destruct (Qle_bool _ 0) eqn:Eq; simpl in H; [destruct H|].
  destruct (nth_error (chunks r) idx) as [c|] eqn:En; [|destruct H].
  destruct H as [<- | []]. simpl. split; [|exact Eq].
  eapply nth_error_In; eauto.
Qed.

Lemma chunks_of_file_id (file : string * string) (c : Chunk) :
  In c (chunks_of_file file) -> exists f i, id c = chunk_id f i.
Proof.
  unfold chunks_of_file. intros H. apply in_flat_map in H as [p [_ H]].
  destruct (filter _ _); [destruct H|]. destruct H as [<- | []].
  simpl. eauto.
Qed.

Lemma load_and_chunk_docs_id (files : list (string * string)) (c : Chunk) :
  In c (load_and_chunk_docs files) -> exists f i, id c = chunk_id f i.
Proof.
  unfold load_and_chunk_docs. intros H. apply in_flat_map in H as [file [_ H]].
  now apply chunks_of_file_id in H.
Qed.

Lemma chunk_id_not_table (f : string) (i : nat) :
  ~ In (chunk_id f i) citation_tables.
Proof.
  assert (Hc : PyStr.contains ":" (chunk_id f i) = true).
  { apply contains_spec. exists f, (":chunk" ++ PyStr.str_of_nat i)%string.
    reflexivity. }
  intros H. simpl in H.
  destruct H as [H | [H | [H | [H | []]]]]; rewrite <- H in Hc; discriminate.
Qed.

Lemma init_chunks (files : result (list (string * string)))
  (fit : list string -> result (string -> nat -> Q)) (r : Retriever.t) :
  init files fit = Ok r ->
  exists fs, files = Ok fs /\ chunks r = load_and_chunk_docs fs.
Proof.
  unfold init. destruct files as [fs|m]; simpl; [|discriminate].
  destruct (load_and_chunk_docs fs) as [|c cs] eqn:E.
  - intros H; injection H as <-. exists fs. split; [reflexivity | now simpl].
  - destruct (fit _); simpl; [|discriminate].
    intros H; injection H as <-. exists fs. split; [reflexivity | now simpl].
Qed.

End RagRoute.

Definition chunk_ids (ctx : list Retriever.Scored) : list string :=
  map (fun c => Retriever.id (Retriever.chunk c)) ctx.

(** The final state of a retrieval-only run. *)
Definition rag_final (q : Question) (ctx : list Retriever.Scored)
  (pred : option string * string) : AgentState :=
  {| question := q_question q; format_hint := q_format_hint q;
     strategy := "rag"; context := ctx; schema := ""; sql_query := "";
     sql_result := None; final_answer := fst pred; explanation := snd pred;
     citations := chunk_ids ctx; errors := []; repair_count := 0 |}.

Lemma rag_run (world : nat -> Env) (q : Question) (s : string) (f : nat) :
  router_lm (world 0%nat) (q_question q) = Ok s ->
  classify s = "rag" ->
  run (S (S (S f))) world 0 router (initial_state q)
  = match Retriever.init (docs (world 1%nat)) (tfidf (world 1%nat)) with
    | Raise m => ([router; retriever], Raised m)
    | Ok rt =>
        let ctx := Retriever.search rt (q_question q) 3 in
        match synth_lm (world 2%nat) (q_question q)
                (PyStr.join PyStr.newline (map context_line ctx))
                "" None (q_format_hint q) with
        | Raise m => ([router; retriever; synthesizer], Raised m)
        | Ok pred => ([router; retriever; synthesizer],
                      Finished (rag_final q ctx pred))
        end
    end.
Proof.
  intros Hs Hc.
  rewrite run_step. cbn [node_fn]. unfold router_node.
  change (question (initial_state q)) with (q_question q).
  rewrite Hs. cbn [bind].
  change (next_node router
            (apply_update (initial_state q)
               {| u_strategy := Some (classify s); u_context := None;
                  u_schema := None; u_sql_query := None; u_sql_result := None;
                  u_final_answer := None; u_explanation := None;
                  u_citations := None; u_errors := None;
                  u_repair_count := None |}))
    with (let* m := follow (classify s)
                      [("rag", retriever); ("sql", planner); ("hybrid", retriever)] in
          Ok (Some m)).
  rewrite Hc. cbn [follow String.eqb Ascii.eqb Bool.eqb bind].
  rewrite run_step. cbn [node_fn]. unfold retriever_node.
  destruct (Retriever.init _ _) as [rt|m]; cbn [bind]; [|reflexivity].
  rewrite next_after_retriever.
  cbn [apply_update strategy u_strategy or_keep initial_state].
  cbn [String.eqb Ascii.eqb Bool.eqb].
  rewrite run_step. cbn [node_fn]. unfold synthesizer_node.
  cbn [apply_update question context sql_query sql_result format_hint
       u_context u_sql_query u_sql_result or_keep initial_state].
  cbv zeta.
  destruct (synth_lm _ _ _ _ _ _) as [pred|m]; cbn [bind]; [|reflexivity].
  cbn [next_node]. unfold rag_final, chunk_ids. reflexivity.
Qed.

(** C8.  When the router's strategy is [rag], the run goes from the
    retriever straight to the synthesizer: it never enters the SQL generator
    or the executor, and in its final state [sql_query] is still empty and
    the citations are exactly the ids of the retrieved chunks, each the id
    of a chunk of the corpus and none of them a table name. *)
Theorem rag_skips_sql (world : nat -> Env) (q : Question) (s : string) :
  router_lm (world 0%nat) (q_question q) = Ok s ->
  classify s = "rag" ->
  let r := invoke_trace world (initial_state q) in
  ~ In sql_generator (fst r)
  /\ ~ In executor (fst r)
  /\ forall st, snd r = Finished st ->
       fst r = [router; retriever; synthesizer]
       /\ strategy st = "rag"
       /\ sql_query st = ""
       /\ citations st = chunk_ids (context st)
       /\ forall c, In c (citations st) ->
            ~ In c citation_tables
            /\ exists files ch,
                 docs (world 1%nat) = Ok files
                 /\ In ch (Retriever.load_and_chunk_docs files)
                 /\ c = Retriever.id ch.
Proof.
  intros Hs Hc r. subst r. unfold invoke_trace, recursion_limit.
  rewrite (rag_run world q 22 Hs Hc).
  destruct (Retriever.init _ _) as [rt|m] eqn:Ei.
  2:{ cbn [fst snd]. split; [simpl; intuition discriminate|].
      split; [simpl; intuition discriminate | discriminate]. }
  cbv zeta.
  destruct (synth_lm _ _ _ _ _ _) as [pred|m].
  2:{ cbn [fst snd]. split; [simpl; intuition discriminate|].
      split; [simpl; intuition discriminate | discriminate]. }
  cbn [fst snd]. split; [simpl; intuition discriminate|].
  split; [simpl; intuition discriminate|].
  intros st Hst. injection Hst as <-.
  split; [reflexivity|]. split; [reflexivity|]. split; [reflexivity|].
  split; [reflexivity|].
  intros c H. cbn [rag_final citations] in H. unfold chunk_ids in H.
  apply in_map_iff in H as (sc & <- & Hsc).
  apply search_In in Hsc as [Hsc _].
  apply init_chunks in Ei as (fs & Hd & Hch). rewrite Hch in Hsc.
  split.
  - apply load_and_chunk_docs_id in Hsc as (f & i & ->).
    apply chunk_id_not_table.
  - exists fs, (Retriever.chunk sc). auto.
Qed.

(** A world whose router answers with neither keyword. *)
Definition policy_env : Env :=
  {| router_lm := fun _ => Ok "Policy lookup";
     sql_lm := fun _ _ => Ok "SELECT * FROM Orders";
     synth_lm := fun _ _ _ _ _ => Ok (Some "30 days", "Stated in the policy.");
     docs := Ok demo_docs;
     tfidf := fun _ => Ok (fun _ i => if Nat.eqb i 0 then 1 # 2 else 0 # 1);
     db := northwind |}.

Definition policy_question : Question :=
  {| q_id := "q2"; q_question := "What is the return policy?";
     q_format_hint := "str" |}.

Lemma rag_skips_sql_witness :
  fst (invoke_trace (fun _ => policy_env) (initial_state policy_question))
  = [router; retriever; synthesizer]
  /\ ~ In sql_generator
         (fst (invoke_trace (fun _ => policy_env) (initial_state policy_question)))
  /\ ~ In executor
         (fst (invoke_trace (fun _ => policy_env) (initial_state policy_question))).
Proof.
  split; [vm_compute; reflexivity|].
  destruct (@rag_skips_sql (fun _ => policy_env) policy_question "Policy lookup"
              eq_refl eq_refl) as (H1 & H2 & _).
  exact (conj H1 H2).
Defined.

Example policy_run_final :
  exists st,
    snd (invoke_trace (fun _ => policy_env) (initial_state policy_question))
    = Finished st
    /\ sql_query st = "" /\ citations st = ["policy::chunk0"].
Proof. eexists. split; [vm_compute; reflexivity|]. split; reflexivity. Qed.

(** ** The batch driver *)

Lemma process_from_length (worlds : nat -> nat -> Env) (qs : list Question) :
  forall i, List.length (process_from worlds i qs) = List.length qs.
Proof.
  induction qs as [|q qs IH]; intros i; cbn [process_from List.length];
    [reflexivity | now rewrite IH].
Qed.

Lemma process_from_nth (worlds : nat -> nat -> Env) (qs : list Question) :
  forall i0 i q,
    nth_error qs i = Some q ->
    nth_error (process_from worlds i0 qs) i
    = Some (process_question (worlds (i0 + i)%nat) q).
Proof.
  induction qs as [|q0 qs IH]; intros i0 [|i] q H;
    cbn [process_from nth_error] in *; try discriminate.
  - injection H as ->. now rewrite Nat.add_0_r.
  - rewrite (IH (S i0) i q H).
    replace (S i0 + i)%nat with (i0 + S i)%nat by lia. reflexivity.
Qed.

(** C7.  Every question of the batch gets its output record, whatever
    happened to the others.  Its confidence is 0.8 when the run ended with an
    empty errors list and 0.4 when the list was not empty; when the
    invocation raised, the confidence is 0.0 and the explanation is the text
    of the exception. *)
Theorem batch_confidence (worlds : nat -> nat -> Env) (qs : list Question) :
  List.length (process_questions worlds qs) = List.length qs
  /\ forall i q,
       nth_error qs i = Some q ->
       exists o,
         nth_error (process_questions worlds qs) i = Some o
         /\ o_id o = q_id q
         /\ match invoke (worlds i) (initial_state q) with
            | Ok st =>
                (errors st = [] -> o_confidence o = 8 # 10)
                /\ (errors st <> [] -> o_confidence o = 4 # 10)
            | Raise e => o_confidence o = 0%Q /\ o_explanation o = e
            end.
Proof.
  split; [apply process_from_length|].
  intros i q H. exists (process_question (worlds i) q).
  split; [exact (@process_from_nth worlds qs 0%nat i q H)|].
  unfold process_question.
  destruct (invoke (worlds i) (initial_state q)) as [st|e];
    cbn [o_id o_confidence o_explanation].
  - split; [reflexivity|]. destruct (errors st); split; congruence.
  - repeat split.
Qed.

(** A world in which the language model cannot be reached. *)
Definition offline_env : Env :=
  {| router_lm := fun _ => Raise "connection refused";
     sql_lm := fun _ _ => Raise "connection refused";
     synth_lm := fun _ _ _ _ _ => Raise "connection refused";
     docs := Ok demo_docs;
     tfidf := fun _ => Ok (fun _ _ => 0 # 1);
     db := northwind |}.

(** The first question meets [offline_env], the second [policy_env], the
    others [stubborn_env]. *)
Definition demo_worlds (i : nat) (tick : nat) : Env :=
  match i with
  | O => offline_env
  | S O => policy_env
  | _ => stubborn_env
  end.

Definition demo_batch : list Question :=
  [demo_question; policy_question; demo_question].

Lemma batch_confidence_witness :
  map (fun o => (o_id o, o_confidence o, o_explanation o))
      (process_questions demo_worlds demo_batch)
  = [("q1", 0 # 1, "connection refused");
     ("q2", 8 # 10, "Stated in the policy.");
     ("q1", 4 # 10, "The query failed.")]
  /\ exists o,
       nth_error (process_questions demo_worlds demo_batch) 0 = Some o
       /\ o_confidence o = 0%Q /\ o_explanation o = "connection refused".
Proof.
  split; [vm_compute; reflexivity|].
  destruct (proj2 (batch_confidence demo_worlds demo_batch) 0%nat demo_question eq_refl)
    as (o & Ho & _ & Hc).
  exists o. split; [exact Ho | exact Hc].
Defined.

(** ** Retrieval *)

Section Search.

Import Retriever.

Variable sims : list Q.

(** The order of two indices by their similarity. *)
Definition sim_le (i j : nat) : Prop := (nth i sims 0 <= nth j sims 0)%Q.

Lemma sim_le_trans (i j k : nat) : sim_le i j -> sim_le j k -> sim_le i k.
Proof. unfold sim_le. apply Qle_trans. Qed.

Lemma insert_index_In (i x : nat) (l : list nat) :
  In x (insert_index sims i l) -> x = i \/ In x l.
Proof.
  induction l as [|j r IH]; simpl.
  - intros [<- | []]. now left.
  - destruct (Qle_bool _ _); simpl; intros [<- | H]; auto.
    destruct (IH H); auto.
Qed.

Lemma insert_index_perm (i : nat) (l : list nat) :
  Permutation (insert_index sims i l) (i :: l).
Proof.
  induction l as [|j r IH]; simpl; [reflexivity|].
  destruct (Qle_bool _ _); [reflexivity|].
  rewrite IH. apply perm_swap.
Qed.

Lemma insert_index_sorted (i : nat) (l : list nat) :
  StronglySorted sim_le l -> StronglySorted sim_le (insert_index sims i l).
Proof.
  induction 1 as [|j r Hs IH Hall]; simpl.
  - constructor; constructor.
  - destruct (Qle_bool (nth i sims 0%Q) (nth j sims 0%Q)) eqn:E.
    + apply Qle_bool_iff in E. constructor; [now constructor|].
      constructor; [exact E|].
      eapply Forall_impl; [|exact Hall]. intros k Hk.
      eapply sim_le_trans; eauto.
    + constructor; [exact IH|].
      apply Forall_forall. intros x Hx. apply insert_index_In in Hx as [-> | Hx].
      * unfold sim_le. apply Qlt_le_weak, Qnot_le_lt. intros H.
        apply Qle_bool_iff in H. congruence.
      * rewrite Forall_forall in Hall. now apply Hall.
Qed.

Lemma argsort_perm : Permutation (argsort sims) (seq 0 (List.length sims)).
Proof.
  unfold argsort. induction (seq 0 (List.length sims)) as [|i l IH]; simpl.
  - reflexivity.
  - rewrite insert_index_perm. now constructor.
Qed.

Lemma argsort_sorted : StronglySorted sim_le (argsort sims).
Proof.
  unfold argsort. induction (seq 0 (List.length sims)) as [|i l IH]; simpl.
  - constructor.
  - now apply insert_index_sorted.
Qed.

End Search.

Lemma StronglySorted_skipn {A} (R : A -> A -> Prop) (n : nat) (l : list A) :
  StronglySorted R l -> StronglySorted R (skipn n l).
Proof.
  revert l; induction n as [|n IH]; intros l H; [exact H|].
  destruct l as [|x l]; [constructor|]. simpl. apply IH. now inversion H.
Qed.

Lemma StronglySorted_snoc {A} (R : A -> A -> Prop) (l : list A) (x : A) :
  StronglySorted R l -> Forall (fun y => R y x) l ->
  StronglySorted R (l ++ [x]).
Proof.
  induction 1 as [|y l Hs IH Hall]; intros Hx; simpl.
  - constructor; constructor.
  - inversion Hx; subst. constructor; [now apply IH|].
    apply Forall_app. split; [exact Hall | now constructor].
Qed.

Lemma StronglySorted_rev {A} (R : A -> A -> Prop) (l : list A) :
  StronglySorted R l -> StronglySorted (fun a b => R b a) (rev l).
Proof.
  induction 1 as [|x l Hs IH Hall]; simpl; [constructor|].
  apply StronglySorted_snoc; [exact IH|].
  apply Forall_forall. intros y Hy. apply in_rev in Hy.
  rewrite Forall_forall in Hall. now apply Hall.
Qed.

Lemma NoDup_skipn {A} (n : nat) (l : list A) : NoDup l -> NoDup (skipn n l).
Proof.
  revert l; induction n as [|n IH]; intros l H; [exact H|].
  destruct l as [|x l]; [constructor|]. simpl. apply IH. now inversion H.
Qed.

Lemma slice_from_last {A} (k : Z) (l : list A) :
  1 <= k ->
  Retriever.slice_from (- k) l
  = skipn (List.length l - Z.to_nat k) l.
Proof.
  intros Hk. unfold Retriever.slice_from.
  replace (- k <? 0) with true by (symmetry; apply Z.ltb_lt; lia).
  f_equal. lia.
Qed.

Lemma slice_from_zero {A} (l : list A) : Retriever.slice_from (- 0) l = l.
Proof.
  unfold Retriever.slice_from. change (- 0 <? 0) with false. cbv iota.
  rewrite Z.min_l by lia. reflexivity.
Qed.

Section SearchResults.

Import Retriever.

Variable r : Retriever.t.
Variable query : string.

(** The indices the loop of [search] goes through, for a fitted index. *)
Definition hit (sim : string -> nat -> Q) (idx : nat) : list Scored :=
  let s := nth idx (map (sim query) (seq 0 (List.length (chunks r)))) 0%Q in
  if negb (Qle_bool s 0)
  then match nth_error (chunks r) idx with
       | Some c => [{| chunk := c; score := s |}]
       | None => []
       end
  else [].

Lemma hit_cases (sim : string -> nat -> Q) (idx : nat) (s : Scored) :
  In s (hit sim idx) ->
  nth_error (chunks r) idx = Some (chunk s)
  /\ score s = nth idx (map (sim query) (seq 0 (List.length (chunks r)))) 0%Q
  /\ (0 < score s)%Q.
Proof.
  unfold hit. destruct (Qle_bool _ 0) eqn:E; simpl; [intros []|].
  destruct (nth_error _ _) as [c|]; [|intros []].
  intros [<- | []]. simpl. repeat split.
  apply Qnot_le_lt. intros H. apply Qle_bool_iff in H. congruence.
Qed.

Lemma hits_length (sim : string -> nat -> Q) (idxs : list nat) :
  (List.length (flat_map (hit sim) idxs) <= List.length idxs)%nat.
Proof.
  induction idxs as [|i l IH]; simpl; [lia|].
  rewrite length_app. unfold hit at 1.
  destruct (negb _); [destruct (nth_error _ _)|]; simpl; lia.
Qed.

Lemma hits_sorted (sim : string -> nat -> Q) (idxs : list nat) :
  StronglySorted
    (fun a b => sim_le (map (sim query) (seq 0 (List.length (chunks r)))) b a) idxs ->
  StronglySorted (fun a b => (score b <= score a)%Q) (flat_map (hit sim) idxs).
Proof.
  induction 1 as [|i l Hs IH Hall]; simpl; [constructor|].
  destruct (hit sim i) as [|s [|s' t]] eqn:E; simpl.
  - exact IH.
  - constructor; [exact IH|].
    assert (Hs0 : In s (hit sim i)) by (rewrite E; now left).
    apply hit_cases in Hs0 as (_ & Hsc & _).
    apply Forall_forall. intros b Hb. apply in_flat_map in Hb as [j [Hj Hb]].
    apply hit_cases in Hb as (_ & Hbs & _).
    rewrite Forall_forall in Hall. specialize (Hall j Hj).
    unfold sim_le in Hall. now rewrite Hsc, Hbs.
  - exfalso. unfold hit in E. destruct (negb _); [|discriminate].
    destruct (nth_error _ _); discriminate.
Qed.

Lemma hits_nodup (sim : string -> nat -> Q) (idxs : list nat) :
  NoDup (map id (chunks r)) ->
  NoDup idxs ->
  NoDup (map (fun s => id (chunk s)) (flat_map (hit sim) idxs)).
Proof.
  intros Hids. induction 1 as [|i l Hi Hl IH]; simpl; [constructor|].
  rewrite map_app. destruct (hit sim i) as [|s [|s' t]] eqn:E; simpl.
  - exact IH.
  - constructor; [|exact IH].
    assert (Hs0 : In s (hit sim i)) by (rewrite E; now left).
    apply hit_cases in Hs0 as (Hn & _ & _).
    intros Hin. apply in_map_iff in Hin as (b & Hb & Hin).
    apply in_flat_map in Hin as [j [Hj Hin]].
    apply hit_cases in Hin as (Hnj & _ & _).
    assert (i = j); [|subst; contradiction].
    assert (Hli : (i < List.length (map id (chunks r)))%nat).
    { rewrite length_map. apply nth_error_Some. congruence. }
    apply (proj1 (NoDup_nth_error (map id (chunks r))) Hids i j Hli).
    rewrite !nth_error_map, Hn, Hnj. simpl. now rewrite Hb.
  - exfalso. unfold hit in E. destruct (negb _); [|discriminate].
    destruct (nth_error _ _); discriminate.
Qed.

Lemma search_unfold (sim : string -> nat -> Q) (top_k : Z) :
  vectorizer r = Some sim ->
  chunks r <> [] ->
  search r query top_k
  = flat_map (hit sim)
      (rev (slice_from (- top_k)
              (argsort (map (sim query) (seq 0 (List.length (chunks r))))))).
Proof.
  intros Hv Hc. unfold search. rewrite Hv.
  destruct (chunks r) as [|c cs] eqn:E; [congruence|]. rewrite <- E. reflexivity.
Qed.

(** For a positive [top_k] the results of [search] are at most [top_k], all
    of positive score, in descending order of score, and without a repeated
    chunk id when the corpus has none. *)
Lemma search_top_k_positive (top_k : Z) :
  1 <= top_k ->
  Z.of_nat (List.length (search r query top_k)) <= top_k
  /\ Forall (fun s => (0 < score s)%Q) (search r query top_k)
  /\ StronglySorted (fun a b => (score b <= score a)%Q) (search r query top_k)
  /\ (NoDup (map id (chunks r)) ->
      NoDup (map (fun s => id (chunk s)) (search r query top_k))).
Proof.
  intros Hk.
  destruct (vectorizer r) as [sim|] eqn:Hv.
  2:{ unfold search. rewrite Hv. simpl. repeat split; try constructor. lia. }
  destruct (chunks r) as [|c0 cs] eqn:Hc.
  { unfold search. rewrite Hv, Hc. simpl. repeat split; try constructor. lia. }
  assert (Hne : chunks r <> []) by congruence. rewrite <- Hc.
  rewrite (search_unfold top_k Hv Hne).
  set (sims := map (sim query) (seq 0 (List.length (chunks r)))).
  rewrite slice_from_last by exact Hk.
  set (idxs := rev (skipn (List.length (argsort sims) - Z.to_nat top_k) (argsort sims))).
  split; [|split; [|split]].
  - pose proof (hits_length sim idxs) as H.
    assert (List.length idxs <= Z.to_nat top_k)%nat.
    { unfold idxs. rewrite length_rev, length_skipn. lia. }
    lia.
  - apply Forall_forall. intros s Hs. apply in_flat_map in Hs as [j [_ Hs]].
    now apply hit_cases in Hs.
  - apply hits_sorted. unfold idxs. fold sims.
    apply StronglySorted_rev, StronglySorted_skipn, argsort_sorted.
  - intros Hids. apply hits_nodup; [exact Hids|].
    unfold idxs. apply NoDup_rev, NoDup_skipn.
    eapply Permutation_NoDup; [symmetry; apply argsort_perm | apply seq_NoDup].
Qed.

(** For [top_k = 0] nothing is cut off: every index is looked at. *)
Lemma search_zero_all (sim : string -> nat -> Q) :
  vectorizer r = Some sim ->
  chunks r <> [] ->
  search r query 0
  = flat_map (hit sim)
      (rev (argsort (map (sim query) (seq 0 (List.length (chunks r)))))).
Proof.
  intros Hv Hc. rewrite (search_unfold 0 Hv Hc). now rewrite slice_from_zero.
Qed.

Lemma search_empty_corpus (top_k : Z) : chunks r = [] -> search r query top_k = [].
Proof. intros H. unfold search. rewrite H. now destruct (vectorizer r). Qed.

End SearchResults.

(** The index built from [demo_docs] when the two chunks have similarity
    1/2 and 1/4 to the query. *)
Definition demo_retriever : Retriever.t :=
  match Retriever.init (docs stubborn_env) (tfidf stubborn_env) with
  | Ok r => r
  | Raise _ => {| Retriever.chunks := []; Retriever.vectorizer := None |}
  end.

Definition id_and_score (s : Retriever.Scored) : string * Q :=
  (Retriever.id (Retriever.chunk s), Retriever.score s).

(** C3 at [top_k = 0]: the slice that should keep the last [top_k] indices
    keeps them all, so [search] returns both chunks where at most zero are
    allowed. *)
Theorem search_top_k_zero :
  map id_and_score (Retriever.search demo_retriever "return policy" 0)
  = [("policy::chunk0", 1 # 2); ("policy::chunk1", 1 # 4)]
  /\ ~ (Z.of_nat (List.length (Retriever.search demo_retriever "return policy" 0)) <= 0).
Proof. split; [vm_compute; reflexivity | vm_compute; intros H; now apply H]. Qed.

(** With a positive [top_k] the same index answers within the bound. *)
Example search_top_k_one :
  map id_and_score (Retriever.search demo_retriever "return policy" 1)
  = [("policy::chunk0", 1 # 2)].
Proof. vm_compute. reflexivity. Qed.

(** Two files of the directory may yield the same chunk id: every [.md] is
    removed from the base name, not only the extension. *)
Example same_stem_same_id :
  map Retriever.id
      (Retriever.load_and_chunk_docs [("a.md", "x"); ("a.md.md", "y")])
  = ["a::chunk0"; "a::chunk0"].
Proof. vm_compute. reflexivity. Qed.

(** ** Worked examples *)

Example lower_strip_example : PyStr.strip (PyStr.lower "  SQL, then RAG ") = "sql, then rag".
Proof. reflexivity. Qed.

Example replace_example : PyStr.replace ".md" "" "product_policy.md" = "product_policy".
Proof. reflexivity. Qed.

Example split_example : PyStr.split "," "a,b,,c" = ["a"; "b"; ""; "c"].
Proof. reflexivity. Qed.

Example classify_examples :
  classify " Hybrid (SQL + RAG) " = "hybrid"
  /\ classify "SQL" = "sql"
  /\ classify "I am not sure" = "rag"
  /\ classify "" = "rag".
Proof. repeat split. Qed.

Example cte_names_example :
  SQLValidator.cte_names_of
    "WITH a AS (SELECT 1), b as(select 2) SELECT * FROM a JOIN b"
  = ["a"; "b"].
Proof. vm_compute. reflexivity. Qed.

Example found_tables_example :
  SQLValidator.found_tables_of
    "SELECT * FROM Orders o JOIN [Order Details] d ON 1 join `x y` FROM Order Details"
  = ["Orders"; "Order Details"; "x y"; "Order"].
Proof. vm_compute. reflexivity. Qed.

Example spaced_example :
  SQLValidator.spaced "OrderDetails" = "order details"
  /\ SQLValidator.spaced "aBcDEf" = "a bc def".
Proof. split; vm_compute; reflexivity. Qed.

Example column_refs_example :
  Re.findall2 SQLValidator.column_pattern "a.b c.d.e 1.5 x.y."
  = [("a", "b"); ("c", "d"); ("1", "5"); ("x", "y")].
Proof. vm_compute. reflexivity. Qed.

Example clean_sql_example :
  clean_sql "```sql
SELECT YEAR(o.OrderDate), month(o.OrderDate) FROM Orders o
```"
  = "SELECT strftime('%Y', o.OrderDate), strftime('%m', o.OrderDate) FROM Orders o".
Proof. vm_compute. reflexivity. Qed.

Example validate_example :
  SQLValidator.validate_sql northwind_validator
    "SELECT o.OrderID, o.Total FROM Orders o JOIN Shipments s ON 1"
  = {| SQLValidator.valid := false;
       SQLValidator.errors :=
         ["Table 'Shipments' does not exist in schema. Valid tables: order details, orders";
          "Column 'Total' not found in any table schema"] |}.
Proof. vm_compute. reflexivity. Qed.

(** A CTE is accepted over a schema without any table. *)
Example cte_query_accepted :
  SQLValidator.validate_sql empty_validator
    "WITH recent AS (SELECT 1 AS n) SELECT n FROM recent"
  = accepted.
Proof. vm_compute. reflexivity. Qed.

(** A CTE declared with a column list is not collected by the pattern. *)
Example cte_with_columns_not_collected :
  SQLValidator.cte_names_of "WITH cnt(x) AS (SELECT 1) SELECT x FROM cnt" = [].
Proof. vm_compute. reflexivity. Qed.

(** An exception without text is not recorded in the errors list. *)
Example executor_empty_message :
  forall st,
    u_errors
      (match executor_node
               {| router_lm := router_lm stubborn_env;
                  sql_lm := sql_lm stubborn_env;
                  synth_lm := synth_lm stubborn_env;
                  docs := docs stubborn_env;
                  tfidf := tfidf stubborn_env;
                  db := {| SQLiteTool.db_catalog := Ok northwind_catalog;
                           SQLiteTool.db_run := fun _ => Raise EmptyString |} |}
               st with
       | Ok u => u
       | Raise _ => no_update
       end)
    = None.
Proof. reflexivity. Qed.

(** A run in which the SQL executes and the validator's report still sends
    it through two repairs; the report is in the final state. *)
Example lenient_run :
  fst (invoke_trace (fun _ => lenient_env) (initial_state demo_question))
  = [router; planner; sql_generator; executor; repair;
     sql_generator; executor; repair; sql_generator; executor; synthesizer]
  /\ map o_confidence (process_questions (fun _ _ => lenient_env) [demo_question])
     = [4 # 10].
Proof. split; vm_compute; reflexivity. Qed.

(** * Further properties *)

(** ** What each node writes *)

(** The fields no node of the SQL branch writes. *)
Definition same_inputs (st st' : AgentState) : Prop :=
  question st' = question st /\ format_hint st' = format_hint st
  /\ strategy st' = strategy st /\ context st' = context st.

Lemma same_inputs_refl (st : AgentState) : same_inputs st st.
Proof. repeat split. Qed.

Lemma same_inputs_trans (a b c : AgentState) :
  same_inputs a b -> same_inputs b c -> same_inputs a c.
Proof. unfold same_inputs. intuition congruence. Qed.

Lemma sql_generator_node_frame (env : Env) (st : AgentState) (u : Update) :
  sql_generator_node env st = Ok u ->
  same_inputs st (apply_update st u)
  /\ repair_count (apply_update st u) = repair_count st
  /\ sql_result (apply_update st u) = sql_result st
  /\ citations (apply_update st u) = citations st
  /\ final_answer (apply_update st u) = final_answer st
  /\ explanation (apply_update st u) = explanation st.
Proof.
  unfold sql_generator_node.
  destruct (SQLiteTool.get_schema _ _); cbn [bind]; [|discriminate].
  destruct (sql_lm _ _ _); cbn [bind]; [|discriminate].
  destruct (SQLValidator.init _); cbn [bind]; [|discriminate].
  destruct (negb _); intros H; injection H as <-; repeat split.
Qed.

Lemma executor_node_frame (env : Env) (st : AgentState) :
  exists u, executor_node env st = Ok u
    /\ same_inputs st (apply_update st u)
    /\ repair_count (apply_update st u) = repair_count st
    /\ sql_query (apply_update st u) = sql_query st
    /\ schema (apply_update st u) = schema st.
Proof.
  unfold executor_node. destruct (truthy_error _); eexists;
    (split; [reflexivity | repeat split]).
Qed.

Lemma repair_node_frame (env : Env) (st : AgentState) (u : Update) :
  repair_node env st = Ok u ->
  same_inputs st (apply_update st u)
  /\ repair_count (apply_update st u) = repair_count st + 1
  /\ errors (apply_update st u) = []
  /\ sql_query (apply_update st u) = sql_query st
  /\ sql_result (apply_update st u) = sql_result st
  /\ schema (apply_update st u) = schema st.
Proof.
  unfold repair_node. destruct (_ && _)%bool; cbn [bind].
  - destruct (SQLValidator.init _); cbn [bind]; [|discriminate].
    intros H; injection H as <-; repeat split.
  - intros H; injection H as <-; repeat split.
Qed.

Lemma synthesizer_node_frame (env : Env) (st : AgentState) (u : Update) :
  synthesizer_node env st = Ok u ->
  same_inputs st (apply_update st u)
  /\ repair_count (apply_update st u) = repair_count st
  /\ errors (apply_update st u) = errors st
  /\ sql_query (apply_update st u) = sql_query st
  /\ sql_result (apply_update st u) = sql_result st
  /\ schema (apply_update st u) = schema st
  /\ citations (apply_update st u) = build_citations (sql_query st) (context st).
Proof.
  unfold synthesizer_node. destruct (synth_lm _ _ _ _ _ _); cbn [bind]; [|discriminate].
  intros H; injection H as <-; repeat split.
Qed.

(** ** The SQL branch *)

Definition sql_branch (n : Node) : bool :=
  match n with
  | router | retriever => false
  | _ => true
  end.

(** What holds of the state a run ends in. *)
Definition settled (st : AgentState) : Prop :=
  0 <= repair_count st <= 2
  /\ (errors st <> [] -> repair_count st = 2)
  /\ citations st = build_citations (sql_query st) (context st).

Lemma run_sql_branch (fuel : nat) :
  forall world tick n st,
    sql_branch n = true ->
    0 <= repair_count st <= 2 ->
    (n = synthesizer -> errors st <> [] -> repair_count st = 2) ->
    (n = repair -> repair_count st < 2) ->
    Forall (fun m => sql_branch m = true) (fst (run fuel world tick n st))
    /\ forall st', snd (run fuel world tick n st) = Finished st' ->
         same_inputs st st' /\ settled st'.
Proof.
  induction fuel as [|f IH]; intros world tick n st Hn Hrc Hsy Hrp.
  - simpl. split; [constructor | discriminate].
  - rewrite run_step. destruct n; try discriminate.
    + (* planner *)
      cbn [node_fn planner_node next_node fst snd].
      destruct (IH world (S tick) sql_generator (apply_update st no_update))
        as [Ht Hf]; try (exact Hrc || reflexivity || discriminate).
      split; [constructor; [reflexivity | exact Ht]|].
      intros st' H. destruct (Hf st' H) as [Hs Hset]. split; [|exact Hset].
      eapply same_inputs_trans; [|exact Hs]. repeat split.
    + (* sql_generator *)
      cbn [node_fn]. destruct (sql_generator_node (world tick) st) as [u|m] eqn:E.
      2:{ cbn [fst snd]. split; [repeat constructor | discriminate]. }
      destruct (sql_generator_node_frame _ _ E) as (Hs & Hr & _).
      cbn [next_node fst snd].
      destruct (IH world (S tick) executor (apply_update st u)) as [Ht Hf];
        try (reflexivity || discriminate); [now rewrite Hr|].
      split; [constructor; [reflexivity | exact Ht]|].
      intros st' H. destruct (Hf st' H) as [Hs' Hset]. split; [|exact Hset].
      eapply same_inputs_trans; eauto.
    + (* executor *)
      cbn [node_fn]. destruct (executor_node_frame (world tick) st)
        as (u & E & Hs & Hr & _). rewrite E.
      rewrite next_after_executor.
      destruct (negb _ && _)%bool eqn:Ec; cbn [fst snd].
      * apply andb_true_iff in Ec as [_ Ec]. apply Z.ltb_lt in Ec.
        destruct (IH world (S tick) repair (apply_update st u)) as [Ht Hf];
          try (reflexivity || discriminate); [now rewrite Hr | intros _; exact Ec |].
        split; [constructor; [reflexivity | exact Ht]|].
        intros st' H. destruct (Hf st' H) as [Hs' Hset]. split; [|exact Hset].
        eapply same_inputs_trans; eauto.
      * destruct (IH world (S tick) synthesizer (apply_update st u)) as [Ht Hf];
          try (reflexivity || discriminate); [now rewrite Hr | |].
        { intros _ He. apply andb_false_iff in Ec as [Ec | Ec].
          - apply negb_false_iff, Nat.eqb_eq in Ec.
            destruct (errors (apply_update st u)); [congruence | discriminate].
          - apply Z.ltb_ge in Ec. lia. }
        split; [constructor; [reflexivity | exact Ht]|].
        intros st' H. destruct (Hf st' H) as [Hs' Hset]. split; [|exact Hset].
        eapply same_inputs_trans; eauto.
    + (* synthesizer *)
      cbn [node_fn]. destruct (synthesizer_node (world tick) st) as [u|m] eqn:E.
      2:{ cbn [fst snd]. split; [repeat constructor | discriminate]. }
      destruct (synthesizer_node_frame _ _ E) as (Hs & Hr & He & Hq & _ & _ & Hc).
      cbn [next_node fst snd]. split; [repeat constructor|].
      intros st' H. injection H as <-. split; [exact Hs|].
      unfold settled. rewrite Hr, He, Hq, Hc.
      destruct Hs as (_ & _ & _ & Hctx). rewrite Hctx.
      split; [exact Hrc|]. split; [now apply Hsy | reflexivity].
    + (* repair *)
      cbn [node_fn]. destruct (repair_node (world tick) st) as [u|m] eqn:E.
      2:{ cbn [fst snd]. split; [repeat constructor | discriminate]. }
      destruct (repair_node_frame _ _ E) as (Hs & Hr & _).
      cbn [next_node fst snd].
      destruct (IH world (S tick) sql_generator (apply_update st u)) as [Ht Hf];
        try (reflexivity || discriminate).
      { rewrite Hr. specialize (Hrp eq_refl). lia. }
      split; [constructor; [reflexivity | exact Ht]|].
      intros st' H. destruct (Hf st' H) as [Hs' Hset]. split; [|exact Hset].
      eapply same_inputs_trans; eauto.
Qed.

Lemma retriever_node_frame (env : Env) (st : AgentState) (u : Update) :
  retriever_node env st = Ok u ->
  exists rt, Retriever.init (docs env) (tfidf env) = Ok rt
    /\ context (apply_update st u) = Retriever.search rt (question st) 3
    /\ question (apply_update st u) = question st
    /\ format_hint (apply_update st u) = format_hint st
    /\ strategy (apply_update st u) = strategy st
    /\ repair_count (apply_update st u) = repair_count st
    /\ errors (apply_update st u) = errors st
    /\ sql_query (apply_update st u) = sql_query st.
Proof.
  unfold retriever_node. destruct (Retriever.init _ _) as [rt|]; cbn [bind];
    [|discriminate].
  intros H; injection H as <-. exists rt. repeat split.
Qed.

(** The state after the router answered with the text [s]. *)
Definition routed (q : Question) (s : string) : AgentState :=
  apply_update (initial_state q) (strategy_update (classify s)).

Lemma run_router (f : nat) (world : nat -> Env) (q : Question) :
  run (S f) world 0 router (initial_state q)
  = match router_lm (world 0%nat) (q_question q) with
    | Raise m => ([router], Raised m)
    | Ok s =>
        let n := if String.eqb (classify s) "sql" then planner else retriever in
        (router :: fst (run f world 1 n (routed q s)),
         snd (run f world 1 n (routed q s)))
    end.
Proof.
  rewrite run_step. cbn [node_fn]. unfold router_node.
  change (question (initial_state q)) with (q_question q).
  destruct (router_lm (world 0%nat) (q_question q)) as [s|m]; cbn [bind];
    [|reflexivity].
  fold (strategy_update (classify s)). fold (routed q s).
  rewrite next_after_router by (apply classify_cases). reflexivity.
Qed.

Lemma run_retriever (f : nat) (world : nat -> Env) (tick : nat) (st : AgentState) :
  run (S f) world tick retriever st
  = match retriever_node (world tick) st with
    | Raise m => ([retriever], Raised m)
    | Ok u =>
        let n := if String.eqb (strategy st) "rag" then synthesizer else planner in
        (retriever :: fst (run f world (S tick) n (apply_update st u)),
         snd (run f world (S tick) n (apply_update st u)))
    end.
Proof.
  rewrite run_step. cbn [node_fn].
  destruct (retriever_node (world tick) st) as [u|m] eqn:E; [|reflexivity].
  rewrite next_after_retriever.
  destruct (retriever_node_frame _ _ E) as (rt & _ & _ & _ & _ & Hs & _).
  now rewrite Hs.
Qed.

Lemma settled_from_router (f : nat) (world : nat -> Env) (q : Question)
  (st' : AgentState) :
  snd (run (S (S f)) world 0 router (initial_state q)) = Finished st' ->
  question st' = q_question q
  /\ format_hint st' = q_format_hint q
  /\ (strategy st' = "hybrid" \/ strategy st' = "sql" \/ strategy st' = "rag")
  /\ settled st'.
Proof.
  rewrite run_router.
  destruct (router_lm (world 0%nat) (q_question q)) as [s|m]; [|discriminate].
  cbv zeta. cbn [snd].
  assert (Hfin : forall fuel tick n st,
             sql_branch n = true ->
             question st = q_question q -> format_hint st = q_format_hint q ->
             strategy st = classify s -> repair_count st = 0 -> errors st = [] ->
             snd (run fuel world tick n st) = Finished st' ->
             question st' = q_question q
             /\ format_hint st' = q_format_hint q
             /\ (strategy st' = "hybrid" \/ strategy st' = "sql" \/ strategy st' = "rag")
             /\ settled st').
  { intros fuel tick n st Hn Hq Hf Hs Hr He H.
    destruct (@run_sql_branch fuel world tick n st Hn) as [_ Hrun]; try lia.
    { intros _ Hne. congruence. }
    destruct (Hrun st' H) as ((Hq' & Hf' & Hs' & _) & Hset).
    rewrite Hq', Hf', Hs', Hq, Hf, Hs.
    split; [reflexivity|]. split; [reflexivity|]. split; [apply classify_cases|].
    exact Hset. }
  destruct (String.eqb (classify s) "sql").
  - intros H. apply (Hfin (S f) 1%nat planner (routed q s)); try reflexivity.
    exact H.
  - rewrite run_retriever.
    destruct (retriever_node (world 1%nat) (routed q s)) as [u|m] eqn:E;
      [|discriminate].
    destruct (retriever_node_frame _ _ E) as (rt & _ & _ & Hq & Hf & Hs & Hr & He & _).
    cbv zeta. cbn [snd]. intros H.
    destruct (String.eqb (strategy (routed q s)) "rag").
    + apply (Hfin f 2%nat synthesizer (apply_update (routed q s) u));
        [reflexivity | now rewrite Hq | now rewrite Hf | now rewrite Hs
        | now rewrite Hr | now rewrite He | exact H].
    + apply (Hfin f 2%nat planner (apply_update (routed q s) u));
        [reflexivity | now rewrite Hq | now rewrite Hf | now rewrite Hs
        | now rewrite Hr | now rewrite He | exact H].
Qed.

(** X1.  The state every finished invocation ends in: the question and the
    format hint are those given, the strategy is one of the three,
    [repair_count] lies between 0 and 2, a non-empty errors list means both
    repairs were used, and the citations are those built from the final SQL
    and the final context. *)
Theorem final_state_settled (world : nat -> Env) (q : Question) (st' : AgentState) :
  snd (invoke_trace world (initial_state q)) = Finished st' ->
  question st' = q_question q
  /\ format_hint st' = q_format_hint q
  /\ (strategy st' = "hybrid" \/ strategy st' = "sql" \/ strategy st' = "rag")
  /\ 0 <= repair_count st' <= 2
  /\ (errors st' <> [] -> repair_count st' = 2)
  /\ citations st' = build_citations (sql_query st') (context st').
Proof. exact (@settled_from_router 23 world q st'). Qed.

(** A state reached in [stubborn_env]. *)
Definition stubborn_final : AgentState :=
  match snd (invoke_trace (fun _ => stubborn_env) (initial_state demo_question)) with
  | Finished st => st
  | _ => initial_state demo_question
  end.

Lemma final_state_settled_witness :
  snd (invoke_trace (fun _ => stubborn_env) (initial_state demo_question))
  = Finished stubborn_final
  /\ errors stubborn_final = ["no such table: Nope"]
  /\ repair_count stubborn_final = 2.
Proof.
  assert (H : snd (invoke_trace (fun _ => stubborn_env) (initial_state demo_question))
              = Finished stubborn_final) by (vm_compute; reflexivity).
  split; [exact H|]. split; [vm_compute; reflexivity|].
  destruct (final_state_settled (fun _ => stubborn_env) demo_question H)
    as (_ & _ & _ & _ & He & _).
  apply He. vm_compute. discriminate.
Defined.

Lemma build_citations_parts (sql : string) (ctx : list Retriever.Scored) :
  exists tabs,
    build_citations sql ctx = (tabs ++ chunk_ids ctx)%list
    /\ incl tabs citation_tables
    /\ (sql = EmptyString -> tabs = []).
Proof.
  unfold build_citations, chunk_ids. destruct (String.eqb sql EmptyString) eqn:E.
  - exists []. split; [reflexivity|]. split; [intros x [] | reflexivity].
  - exists (filter (cites_table sql) citation_tables). split; [reflexivity|].
    split; [intros x Hx; now apply filter_In in Hx|].
    intros ->. discriminate.
Qed.

Lemma sql_route_fuel (f : nat) (world : nat -> Env) (q : Question) (s : string) :
  router_lm (world 0%nat) (q_question q) = Ok s ->
  classify s = "sql" ->
  ~ In retriever (fst (run (S f) world 0 router (initial_state q)))
  /\ forall st', snd (run (S f) world 0 router (initial_state q)) = Finished st' ->
       strategy st' = "sql"
       /\ context st' = []
       /\ forall c, In c (citations st') -> In c citation_tables.
Proof.
  intros Hs Hc. rewrite run_router, Hs, Hc. cbv zeta.
  change (String.eqb "sql" "sql") with true. cbv iota. cbn [fst snd].
  destruct (@run_sql_branch f world 1%nat planner (routed q s) eq_refl)
    as [Ht Hf]; try (simpl; lia); try discriminate.
  split.
  - intros [H | H]; [discriminate|].
    rewrite Forall_forall in Ht. specialize (Ht _ H). discriminate.
  - intros st' H. destruct (Hf st' H) as ((_ & _ & Hst & Hctx) & _ & _ & Hcit).
    split; [rewrite Hst; unfold routed; simpl; now rewrite Hc|].
    split; [now rewrite Hctx|].
    intros c Hin. rewrite Hcit, Hctx in Hin.
    destruct (build_citations_parts (sql_query st') (context (routed q s)))
      as (tabs & E & Hincl & _).
    rewrite E in Hin. apply in_app_iff in Hin as [Hin | Hin]; [now apply Hincl|].
    destruct Hin.
Qed.

(** X2.  When the router's strategy is [sql], the run never enters the
    retriever; in its final state the context is empty and every citation is
    one of the four table names. *)
Theorem sql_route_skips_retrieval (world : nat -> Env) (q : Question) (s : string) :
  router_lm (world 0%nat) (q_question q) = Ok s ->
  classify s = "sql" ->
  ~ In retriever (fst (invoke_trace world (initial_state q)))
  /\ forall st', snd (invoke_trace world (initial_state q)) = Finished st' ->
       strategy st' = "sql"
       /\ context st' = []
       /\ forall c, In c (citations st') -> In c citation_tables.
Proof. exact (@sql_route_fuel 24 world q s). Qed.

Lemma sql_route_skips_retrieval_witness :
  ~ In retriever
       (fst (invoke_trace (fun _ => stubborn_env) (initial_state demo_question)))
  /\ context stubborn_final = [].
Proof.
  destruct (@sql_route_skips_retrieval (fun _ => stubborn_env) demo_question "SQL"
              eq_refl eq_refl) as [H1 H2].
  split; [exact H1|].
  assert (H : snd (invoke_trace (fun _ => stubborn_env) (initial_state demo_question))
              = Finished stubborn_final) by (vm_compute; reflexivity).
  exact (proj1 (proj2 (H2 _ H))).
Defined.

Lemma hybrid_route_fuel (f : nat) (world : nat -> Env) (q : Question) (s : string) :
  router_lm (world 0%nat) (q_question q) = Ok s ->
  classify s = "hybrid" ->
  (exists tl, fst (run (S (S f)) world 0 router (initial_state q))
              = router :: retriever :: tl
              /\ Forall (fun n => sql_branch n = true) tl)
  /\ forall st', snd (run (S (S f)) world 0 router (initial_state q)) = Finished st' ->
       exists rt tabs,
         Retriever.init (docs (world 1%nat)) (tfidf (world 1%nat)) = Ok rt
         /\ strategy st' = "hybrid"
         /\ context st' = Retriever.search rt (q_question q) 3
         /\ citations st' = (tabs ++ chunk_ids (context st'))%list
         /\ incl tabs citation_tables.
Proof.
  intros Hs Hc. rewrite run_router, Hs, Hc. cbv zeta.
  change (String.eqb "hybrid" "sql") with false. cbv iota.
  rewrite run_retriever.
  destruct (retriever_node (world 1%nat) (routed q s)) as [u|m] eqn:E.
  2:{ cbn [fst snd]. split; [exists []; split; [reflexivity | constructor]
                            | discriminate]. }
  destruct (retriever_node_frame _ _ E) as (rt & Hi & Hctx & _ & _ & Hst & Hr & He & _).
  assert (Hstr : strategy (routed q s) = "hybrid")
    by (unfold routed; simpl; now rewrite Hc).
  rewrite Hstr. change (String.eqb "hybrid" "rag") with false. cbv zeta iota.
  cbn [fst snd].
  destruct (@run_sql_branch f world 2%nat planner (apply_update (routed q s) u) eq_refl)
    as [Ht Hf]; try discriminate; [rewrite Hr; simpl; lia|].
  split; [eexists; split; [reflexivity | exact Ht]|].
  intros st' H. destruct (Hf st' H) as ((_ & _ & Hst' & Hctx') & _ & _ & Hcit).
  destruct (build_citations_parts (sql_query st') (context st'))
    as (tabs & Eb & Hincl & _).
  exists rt, tabs. split; [exact Hi|].
  split; [now rewrite Hst', Hst|].
  split; [now rewrite Hctx', Hctx|].
  split; [now rewrite Hcit, Eb | exact Hincl].
Qed.

(** X3.  When the router's strategy is [hybrid], the run enters the
    retriever once, right after the router and before any node of the SQL
    branch; in its final state the context is what the retriever found for
    the question with [top_k = 3], and the citations are table names among
    the four followed by the ids of these chunks in order. *)
Theorem hybrid_route_retrieves_first (world : nat -> Env) (q : Question) (s : string) :
  router_lm (world 0%nat) (q_question q) = Ok s ->
  classify s = "hybrid" ->
  (exists tl, fst (invoke_trace world (initial_state q)) = router :: retriever :: tl
              /\ Forall (fun n => sql_branch n = true) tl)
  /\ forall st', snd (invoke_trace world (initial_state q)) = Finished st' ->
       exists rt tabs,
         Retriever.init (docs (world 1%nat)) (tfidf (world 1%nat)) = Ok rt
         /\ strategy st' = "hybrid"
         /\ context st' = Retriever.search rt (q_question q) 3
         /\ citations st' = (tabs ++ chunk_ids (context st'))%list
         /\ incl tabs citation_tables.
Proof. exact (@hybrid_route_fuel 23 world q s). Qed.

(** A world whose router asks for both and whose SQL names a known table. *)
Definition campaign_env : Env :=
  {| router_lm := fun _ => Ok "Hybrid: SQL and RAG";
     sql_lm := fun _ _ => Ok "SELECT COUNT(*) FROM Orders";
     synth_lm := fun _ _ _ _ _ => Ok (Some "830", "Counted the orders.");
     docs := Ok demo_docs;
     tfidf := fun _ => Ok (fun _ i => if Nat.eqb i 0 then 1 # 2 else 1 # 4);
     db := {| SQLiteTool.db_catalog := Ok northwind_catalog;
              SQLiteTool.db_run :=
                fun _ => Ok (["COUNT(*)"], [[SQLiteTool.SqlInt 830]]) |} |}.

Lemma hybrid_route_retrieves_first_witness :
  exists tl,
    fst (invoke_trace (fun _ => campaign_env) (initial_state demo_question))
    = router :: retriever :: tl
    /\ Forall (fun n => sql_branch n = true) tl.
Proof.
  exact (proj1 (@hybrid_route_retrieves_first (fun _ => campaign_env) demo_question
                  "Hybrid: SQL and RAG" eq_refl eq_refl)).
Defined.

Example campaign_run :
  fst (invoke_trace (fun _ => campaign_env) (initial_state demo_question))
  = [router; retriever; planner; sql_generator; executor; synthesizer]
  /\ map o_citations (process_questions (fun _ _ => campaign_env) [demo_question])
     = [["Orders"; "policy::chunk0"; "policy::chunk1"]]
  /\ map o_confidence (process_questions (fun _ _ => campaign_env) [demo_question])
     = [8 # 10].
Proof. repeat split; vm_compute; reflexivity. Qed.

(** ** Loading the validator *)

Section ValidatorLoad.

Import PyStr SQLValidator.








End ValidatorLoad.

(** ** The repair node and the generator *)

Section RepairAndGenerate.

Import PyStr.

















End RepairAndGenerate.

(** ** One repair cycle *)

(** X7.  A repair followed by a generation whose SQL passes validation and
    an execution without error ends the loop: the errors list is empty, the
    next node is the synthesizer, and [repair_count] is one more than before
    the repair. *)
Theorem repair_cycle_with_valid_sql
  (env_r env_g env_x : Env) (st : AgentState) (ur ug : Update)
  (cols : list string) (rws : list (list SQLiteTool.sql_value)) :
  repair_node env_r st = Ok ur ->
  sql_generator_node env_g (apply_update st ur) = Ok ug ->
  u_errors ug = None ->
  SQLiteTool.db_run (db env_x) (sql_query (apply_update (apply_update st ur) ug))
  = Ok (cols, rws) ->
  exists ux,
    executor_node env_x (apply_update (apply_update st ur) ug) = Ok ux
    /\ errors (apply_update (apply_update (apply_update st ur) ug) ux) = []
    /\ repair_count (apply_update (apply_update (apply_update st ur) ug) ux)
       = repair_count st + 1
    /\ next_node executor (apply_update (apply_update (apply_update st ur) ug) ux)
       = Ok (Some synthesizer).
Proof.
  intros Hr Hg He Hx.
  destruct (repair_node_frame _ _ Hr) as (_ & Hrc & Herr & _).
  destruct (sql_generator_node_frame _ _ Hg) as (_ & Hrc2 & _).
  set (st2 := apply_update (apply_update st ur) ug) in *.
  assert (Herr2 : errors st2 = []).
  { unfold st2. cbn [apply_update errors]. rewrite He. cbn [or_keep]. exact Herr. }
  unfold executor_node, SQLiteTool.execute_query. rewrite Hx.
  cbn [SQLiteTool.error truthy_error]. eexists. split; [reflexivity|].
  split; [exact Herr2|]. split; [cbn [apply_update repair_count or_keep u_repair_count]; congruence|].
  rewrite next_after_executor. cbn [apply_update errors or_keep u_errors].
  rewrite Herr2. reflexivity.
Qed.

(** A world whose model first names a column that does not exist and then
    corrects itself. *)
Definition learning_world (tick : nat) : Env :=
  {| router_lm := fun _ => Ok "sql";
     sql_lm := fun _ _ =>
                 if Nat.leb tick 2
                 then Ok "SELECT o.Total FROM Orders o"
                 else Ok "SELECT o.OrderID FROM Orders o";
     synth_lm := fun _ _ _ _ _ => Ok (Some "10248", "First order id.");
     docs := Ok demo_docs;
     tfidf := fun _ => Ok (fun _ i => if Nat.eqb i 0 then 1 # 2 else 1 # 4);
     db := {| SQLiteTool.db_catalog := Ok northwind_catalog;
              SQLiteTool.db_run :=
                fun q => if String.eqb q "SELECT o.OrderID FROM Orders o"
                         then Ok (["OrderID"], [[SQLiteTool.SqlInt 10248]])
                         else Raise "no such column: o.Total" |} |}.

(** The state in which the repair node is entered in [learning_world]. *)
Definition state_before_repair : AgentState :=
  match sql_generator_node (learning_world 2) routed_state with
  | Ok ug =>
      match executor_node (learning_world 3) (apply_update routed_state ug) with
      | Ok ux => apply_update (apply_update routed_state ug) ux
      | Raise _ => routed_state
      end
  | Raise _ => routed_state
  end.

Definition update_of (r : result Update) : Update :=
  match r with
  | Ok u => u
  | Raise _ => no_update
  end.

Lemma repair_cycle_with_valid_sql_witness :
  errors state_before_repair = ["no such column: o.Total"]
  /\ exists ux,
       executor_node (learning_world 6)
         (apply_update
            (apply_update state_before_repair
               (update_of (repair_node (learning_world 4) state_before_repair)))
            (update_of
               (sql_generator_node (learning_world 5)
                  (apply_update state_before_repair
                     (update_of (repair_node (learning_world 4) state_before_repair))))))
       = Ok ux
       /\ errors
            (apply_update
               (apply_update
                  (apply_update state_before_repair
                     (update_of (repair_node (learning_world 4) state_before_repair)))
                  (update_of
                     (sql_generator_node (learning_world 5)
                        (apply_update state_before_repair
                           (update_of
                              (repair_node (learning_world 4) state_before_repair))))))
               ux)
          = [].
Proof.
  split; [vm_compute; reflexivity|].
  destruct (@repair_cycle_with_valid_sql
              (learning_world 4) (learning_world 5) (learning_world 6)
              state_before_repair
              (update_of (repair_node (learning_world 4) state_before_repair))
              (update_of
                 (sql_generator_node (learning_world 5)
                    (apply_update state_before_repair
                       (update_of (repair_node (learning_world 4) state_before_repair)))))
              ["OrderID"] [[SQLiteTool.SqlInt 10248]])
    as (ux & Hx & He & _); try (vm_compute; reflexivity).
  exists ux. split; [exact Hx | exact He].
Defined.

(** In [learning_world] the run repairs once and ends without errors. *)
Example learning_run :
  fst (invoke_trace learning_world (initial_state demo_question))
  = [router; planner; sql_generator; executor; repair;
     sql_generator; executor; synthesizer]
  /\ map o_confidence (process_questions (fun _ => learning_world) [demo_question])
     = [8 # 10].
Proof. split; vm_compute; reflexivity. Qed.

(** ** Tables and columns the schema does not have *)

Section MissingNames.

Import PyStr SQLValidator.

Lemma rstrip_nonspace (c : ascii) (r : string) :
  is_space c = false -> rstrip (String c r) <> EmptyString.
Proof.
  intros Hc. cbn [rstrip]. destruct (rstrip r); [rewrite Hc|]; discriminate.
Qed.

Lemma lstrip_cases (s : string) :
  lstrip s = EmptyString
  \/ exists c r, lstrip s = String c r /\ is_space c = false.
Proof.
  induction s as [|c r IH]; cbn [lstrip]; [now left|].
  destruct (is_space c) eqn:E; [exact IH|]. right. eauto.
Qed.

Lemma lstrip_empty (s : string) : lstrip s = EmptyString -> whitespace_only s = true.
Proof.
  induction s as [|c r IH]; cbn [lstrip whitespace_only]; [reflexivity|].
  destruct (is_space c); [exact IH | discriminate].
Qed.

Lemma strip_empty (s : string) : strip s = EmptyString -> whitespace_only s = true.
Proof.
  unfold strip. intros H. destruct (lstrip_cases s) as [E | (c & r & E & Hc)].
  - now apply lstrip_empty.
  - rewrite E in H. now apply rstrip_nonspace in H.
Qed.

Lemma run_alt (r1 r2 : Re.regex) (b : option ascii) (s : string) (cs : Re.caps)
  (k : option ascii -> string -> Re.caps -> option Re.found) :
  Re.run (Re.Alt r1 r2) b s cs k
  = match Re.run r1 b s cs k with
    | Some x => Some x
    | None => Re.run r2 b s cs k
    end.
Proof. reflexivity. Qed.

Lemma space_not_f (c : ascii) :
  is_space c = true -> Ascii.eqb (lower_char c) (lower_char "F") = false.
Proof. destruct c as [[] [] [] [] [] [] [] []]; simpl; intros H; try reflexivity; discriminate. Qed.

Lemma space_not_j (c : ascii) :
  is_space c = true -> Ascii.eqb (lower_char c) (lower_char "J") = false.
Proof. destruct c as [[] [] [] [] [] [] [] []]; simpl; intros H; try reflexivity; discriminate. Qed.

Lemma table_no_match_at_space (b : option ascii) (s : string) :
  whitespace_only s = true -> Re.match_at table_pattern b s = None.
Proof.
  intros Hs. unfold Re.match_at, table_pattern, Re.seq_of. cbn [fold_right Re.lit_ci].
  rewrite run_seq, run_bnd. destruct (Re.at_boundary b s); [|reflexivity].
  rewrite run_seq, run_alt, !run_seq.
  destruct s as [|c r]; [reflexivity|].
  cbn [whitespace_only] in Hs. apply andb_true_iff in Hs as [Hc _].
  rewrite !run_chr. now rewrite (space_not_f _ Hc), (space_not_j _ Hc).
Qed.

Lemma table_scan_blank (fuel : nat) :
  forall b s skipped,
    whitespace_only s = true ->
    fst (Re.scan fuel table_pattern b s skipped) = [].
Proof.
  induction fuel as [|f IH]; intros b s skipped Hs; [reflexivity|].
  cbn [Re.scan]. rewrite (table_no_match_at_space b s Hs).
  destruct s as [|c r]; [reflexivity|].
  cbn [whitespace_only] in Hs. apply andb_true_iff in Hs as [_ Hr].
  now apply IH.
Qed.

Lemma found_tables_blank (sql : string) :
  whitespace_only sql = true -> found_tables_of sql = [].
Proof.
  intros H. unfold found_tables_of, Re.findall2, Re.finditer.
  now rewrite table_scan_blank.
Qed.

Lemma in_firstn {A} (n : nat) (l : list A) (x : A) : In x (firstn n l) -> In x l.
Proof.
  intros H. rewrite <- (firstn_skipn n l). apply in_app_iff. now left.
Qed.

Lemma found_match_false (v : SQLValidator.t) (t : string) :
  (forall vt, In vt (valid_tables v) ->
              remove_spaces (lower t) <> remove_spaces vt) ->
  found_match v t = false.
Proof.
  intros H. unfold found_match. apply not_true_is_false. intros E.
  apply existsb_exists in E as (vt & Hin & Hm).
  rewrite table_matches_key in Hm. apply String.eqb_eq in Hm.
  exact (H vt Hin Hm).
Qed.

(** X8.  A table the scan of [FROM] and [JOIN] finds is reported when it is
    not a CTE name and no known table agrees with it up to case and spaces:
    the validation is not valid and its errors hold the message naming that
    table. *)
Theorem missing_table_reported (v : SQLValidator.t) (sql t : string) :
  In t (found_tables_of sql) ->
  ~ In (lower (strip t)) (map lower (cte_names_of sql)) ->
  (forall vt, In vt (valid_tables v) ->
              remove_spaces (lower (strip t)) <> remove_spaces vt) ->
  valid (validate_sql v sql) = false
  /\ In (table_error v t) (errors (validate_sql v sql)).
Proof.
  intros Hin Hcte Hno.
  assert (Hguard : (String.eqb sql EmptyString
                    || String.eqb (strip sql) EmptyString)%bool = false).
  { apply not_true_is_false. intros E.
    assert (Hw : whitespace_only sql = true).
    { apply orb_true_iff in E as [E | E]; apply String.eqb_eq in E.
      - now subst.
      - now apply strip_empty. }
    rewrite (found_tables_blank _ Hw) in Hin. destruct Hin. }
  assert (Herr : In (table_error v t) (table_errors v sql)).
  { unfold table_errors. apply in_flat_map. exists t. split; [exact Hin|].
    unfold check_table.
    replace (mem (lower (strip t)) (map lower (cte_names_of sql))) with false.
    - rewrite (found_match_false v _ Hno). now left.
    - symmetry. apply not_true_is_false. intros E. now apply mem_spec in E. }
  unfold validate_sql. rewrite Hguard. cbn [valid errors].
  split; [|apply in_app_iff; now left].
  destruct (table_errors v sql ++ column_errors v sql)%list eqn:E; [|reflexivity].
  apply app_eq_nil in E as [E _]. rewrite E in Herr. destruct Herr.
Qed.

Lemma missing_table_reported_witness :
  valid (validate_sql northwind_validator "SELECT * FROM Shipments") = false
  /\ In (table_error northwind_validator "Shipments")
        (errors (validate_sql northwind_validator "SELECT * FROM Shipments")).
Proof.
  apply missing_table_reported.
  - vm_compute. now left.
  - vm_compute. intros [].
  - intros vt [<- | [<- | []]]; vm_compute; discriminate.
Defined.

(** X9.  A dotted reference is accepted exactly when its column, lower-cased,
    is a column of some table, whatever its qualifier: the qualifier is not
    resolved.  Otherwise one error names the column; the names suggested with
    it are at most three, each a known column that contains the name or is
    contained in it. *)
Theorem column_check_ignores_qualifier (v : SQLValidator.t) (q col : string) :
  (check_column v (q, col) = []
   <-> exists tc, In tc (valid_columns v) /\ In (lower col) (snd tc))
  /\ (forall e, In e (check_column v (q, col)) ->
        check_column v (q, col) = [e]
        /\ occurs ("Column '" ++ col ++ "' not found in any table schema") e)
  /\ (List.length (find_similar_columns v (lower col)) <= 3)%nat
  /\ (forall s, In s (find_similar_columns v (lower col)) ->
        (exists tc, In tc (valid_columns v) /\ In s (snd tc))
        /\ (occurs (lower col) s \/ occurs s (lower col))).
Proof.
  assert (Hex : existsb (fun tc => mem (lower col) (snd tc)) (valid_columns v) = true
                <-> exists tc, In tc (valid_columns v) /\ In (lower col) (snd tc)).
  { rewrite existsb_exists. split; intros (tc & H1 & H2); exists tc;
      (split; [exact H1 | now apply mem_spec]). }
  split; [|split; [|split]].
  - rewrite <- Hex. unfold check_column. cbn [snd].
    destruct (existsb _ _); [tauto|].
    destruct (find_similar_columns v (lower col)); split; discriminate.
  - intros e. unfold check_column. cbn [snd].
    destruct (existsb _ _); [intros []|].
    destruct (find_similar_columns v (lower col)) as [|s0 ss];
      intros [<- | []]; (split; [reflexivity|]).
    + exists EmptyString, EmptyString. now rewrite append_nil_r.
    + exists EmptyString, (". Did you mean: " ++ join ", " (s0 :: ss) ++ "?").
      cbn [String.append]. now rewrite !append_assoc.
  - unfold find_similar_columns. apply firstn_le_length.
  - intros s Hs. unfold find_similar_columns, all_columns in Hs.
    apply in_firstn in Hs.
    apply filter_In in Hs as [Hs Hc]. rewrite dedup_In in Hs.
    apply in_flat_map in Hs as (tc & Htc & Hs).
    split; [eauto|].
    apply orb_true_iff in Hc as [Hc | Hc]; apply contains_spec in Hc; auto.
Qed.

Lemma column_check_ignores_qualifier_witness :
  check_column northwind_validator ("d", "OrderDate") = []
  /\ check_column northwind_validator ("o", "Date")
     = ["Column 'Date' not found in any table schema. Did you mean: orderdate?"].
Proof.
  split.
  - apply (proj1 (column_check_ignores_qualifier northwind_validator "d" "OrderDate")).
    exists ("orders", ["orderid"; "orderdate"]). split; simpl; auto.
  - vm_compute. reflexivity.
Defined.

End MissingNames.

(** ** Citations *)

Section Citations.

Import PyStr.

Lemma occurs_squeeze (a b : string) : occurs a b -> occurs (squeeze a) (squeeze b).
Proof.
  intros (x & y & ->). exists (squeeze x), (squeeze y). now rewrite !squeeze_app.
Qed.

Lemma cites_table_key (q t : string) :
  cites_table q t = contains (key t) (key q).
Proof.
  unfold cites_table.
  change (replace " " "" t) with (SQLValidator.remove_spaces t).
  change (replace " " "" (lower q)) with (SQLValidator.remove_spaces (lower q)).
  rewrite !remove_spaces_squeeze, <- squeeze_lower. fold (key t). fold (key q).
  destruct (contains (key t) (key q)) eqn:E; [apply orb_true_r|].
  rewrite orb_false_r. apply not_true_is_false. intros H.
  apply contains_spec, occurs_squeeze in H. apply contains_spec in H.
  unfold key in E. congruence.
Qed.

(** X10.  Which table names the synthesizer cites depends on the SQL only up
    to case and spaces: one of the four names is cited exactly when its
    letters, lower-cased and without spaces, occur in the SQL treated the
    same way.  The ids of all retrieved chunks follow the table names, in
    retrieval order and without removing repetitions; an empty SQL cites no
    table. *)
Theorem citations_up_to_case_and_spaces :
  (forall q t, cites_table q t = true <-> occurs (key t) (key q))
  /\ (forall q q' ctx,
        q <> EmptyString -> q' <> EmptyString -> key q = key q' ->
        build_citations q ctx = build_citations q' ctx)
  /\ (forall q ctx,
        q <> EmptyString ->
        build_citations q ctx
        = (filter (fun t => contains (key t) (key q)) citation_tables
           ++ chunk_ids ctx)%list)
  /\ (forall ctx, build_citations EmptyString ctx = chunk_ids ctx).
Proof.
  assert (Hb : forall q ctx,
             q <> EmptyString ->
             build_citations q ctx
             = (filter (fun t => contains (key t) (key q)) citation_tables
                ++ chunk_ids ctx)%list).
  { intros q ctx Hq. unfold build_citations, chunk_ids.
    replace (String.eqb q EmptyString) with false
      by (symmetry; now apply String.eqb_neq).
    f_equal. apply filter_ext. intros t. apply cites_table_key. }
  split; [|split; [|split]].
  - intros q t. now rewrite cites_table_key, contains_spec.
  - intros q q' ctx Hq Hq' Hk. now rewrite !Hb, Hk.
  - exact Hb.
  - reflexivity.
Qed.

Lemma citations_up_to_case_and_spaces_witness :
  build_citations "select * from ORDERDETAILS" []
  = build_citations "SELECT * FROM Order Details" [].
Proof.
  apply (proj1 (proj2 citations_up_to_case_and_spaces));
    [discriminate | discriminate | vm_compute; reflexivity].
Defined.

Example citations_example :
  build_citations "select * from ORDERDETAILS" [] = ["Order Details"].
Proof. vm_compute. reflexivity. Qed.

End Citations.

(** ** The schema text and the columns read back from it *)

Section SchemaText.

Import PyStr SQLValidator.

Definition nl : ascii := ascii_of_nat 10.

(** A string without a newline. *)
Fixpoint one_line (s : string) : bool :=
  match s with
  | EmptyString => true
  | String c r => (negb (Ascii.eqb nl c) && one_line r)%bool
  end.

(** [s.split(newline)] by one pass over [s]. *)
Fixpoint lines_from (s cur : string) : list string :=
  match s with
  | EmptyString => [cur]
  | String c r =>
      if Ascii.eqb nl c then cur :: lines_from r EmptyString
      else lines_from r (cur ++ String c EmptyString)
  end.

Lemma split_fuel_lines (n : nat) :
  forall s cur, (String.length s <= n)%nat ->
    split_fuel n newline s cur = lines_from s cur.
Proof.
  induction n as [|n IH]; intros s cur Hn.
  - destruct s; [|simpl in Hn; lia]. cbn [split_fuel lines_from].
    now rewrite append_nil_r.
  - destruct s as [|c r]; [reflexivity|].
    cbn [split_fuel lines_from]. unfold newline. cbn [starts_with].
    fold nl. rewrite andb_true_r.
    destruct (Ascii.eqb nl c).
    + cbn [String.length drop]. f_equal. apply IH. simpl in Hn. lia.
    + apply IH. simpl in Hn. lia.
Qed.

Lemma split_lines (s : string) : split newline s = lines_from s EmptyString.
Proof. apply split_fuel_lines. lia. Qed.

Lemma lines_from_line (a rest cur : string) :
  one_line a = true ->
  lines_from (a ++ String nl rest) cur = (cur ++ a) :: lines_from rest EmptyString.
Proof.
  revert cur; induction a as [|c a IH]; intros cur Ha; cbn [String.append lines_from].
  - rewrite Ascii.eqb_refl. now rewrite append_nil_r.
  - cbn [one_line] in Ha. apply andb_true_iff in Ha as [Hc Ha].
    apply negb_true_iff in Hc. rewrite Hc, IH by exact Ha.
    now rewrite append_assoc.
Qed.

Lemma one_line_app (a b : string) :
  one_line (a ++ b) = (one_line a && one_line b)%bool.
Proof.
  induction a as [|c a IH]; cbn [String.append one_line]; [reflexivity|].
  now rewrite IH, andb_assoc.
Qed.

Lemma word_one_line (s : string) : all_word s = true -> one_line s = true.
Proof.
  induction s as [|c r IH]; cbn [all_word one_line]; [reflexivity|].
  intros H. apply andb_true_iff in H as [Hc Hr]. rewrite (IH Hr), andb_true_r.
  apply negb_true_iff, Ascii.eqb_neq. intros <-. discriminate.
Qed.

(** What [_extract_columns_from_schema] does with one line. *)
Definition columns_of_line (line : string) : list string :=
  if starts_with "- " (strip line)
  then match Re.match_start schema_line_pattern line with
       | Some cs => [Re.group 1 cs]
       | None => []
       end
  else [].

Lemma rstrip_cons (c : ascii) (r : string) :
  rstrip r <> EmptyString -> rstrip (String c r) = String c (rstrip r).
Proof. intros H. cbn [rstrip]. destruct (rstrip r); [congruence | reflexivity]. Qed.

Lemma rstrip_head (c : ascii) (r : string) :
  is_space c = false -> exists r', rstrip (String c r) = String c r'.
Proof.
  intros Hc. cbn [rstrip]. destruct (rstrip r); [rewrite Hc|]; eauto.
Qed.

Lemma rstrip_app_nonspace (a : string) (c : ascii) (r : string) :
  is_space c = false -> rstrip (a ++ String c r) <> EmptyString.
Proof.
  intros Hc. induction a as [|x a IH]; cbn [String.append].
  - now apply rstrip_nonspace.
  - rewrite rstrip_cons by exact IH. discriminate.
Qed.

Lemma space_not_dash (c : ascii) : is_space c = true -> Ascii.eqb "-" c = false.
Proof. destruct c as [[] [] [] [] [] [] [] []]; simpl; intros H; try reflexivity; discriminate. Qed.

Lemma space_not_word (c : ascii) : is_space c = true -> is_word c = false.
Proof. destruct c as [[] [] [] [] [] [] [] []]; simpl; intros H; try reflexivity; discriminate. Qed.

Ltac re_step :=
  cbv beta iota;
  repeat (first [rewrite run_seq | rewrite run_grp | rewrite run_eps | rewrite run_bnd];
          cbv beta iota).

Lemma schema_line_match (c : ascii) (n ty : string) :
  is_word c = true -> all_word n = true ->
  Re.match_start schema_line_pattern ("  - " ++ String c n ++ " (" ++ ty ++ ")")
  = Some [(1%nat, String c n)].
Proof.
  intros Hc Hn. unfold Re.match_start, Re.match_at, schema_line_pattern, Re.seq_of.
  cbn [fold_right String.append]. unfold Re.Plus, Re.word, Re.space, Re.chr.
  re_step. rewrite run_star_class.
  2:{ intros b c' s cs Hc'. re_step. rewrite run_chr.
      now rewrite (space_not_dash _ Hc'). }
  cbn [span]. change (is_space " ") with true. change (is_space "-") with false.
  cbv beta iota. cbn [fst snd]. re_step. rewrite run_chr.
  change (Ascii.eqb "-" "-") with true. re_step.
  rewrite run_star_class.
  2:{ intros b c' s cs Hc'. re_step. rewrite run_chr.
      now rewrite (space_not_word _ Hc'). }
  cbn [span]. change (is_space " ") with true. rewrite (word_not_space _ Hc).
  cbv beta iota. cbn [fst snd]. re_step. rewrite run_chr, Hc. re_step.
  rewrite run_star_class.
  2:{ intros b c' s cs Hc'. re_step. rewrite run_star_class.
      - cbn [span]. rewrite (word_not_space _ Hc'). cbv beta iota. cbn [fst snd].
        re_step. rewrite run_chr. now rewrite (word_not_paren _ Hc').
      - intros b0 c0 s0 cs0 Hc0. re_step. rewrite run_chr.
        now rewrite (space_not_paren _ Hc0). }
  pose proof (span_word_prefix n (" (" ++ ty ++ ")") (Some c) Hn eq_refl) as Hsp.
  cbn [String.append] in Hsp. rewrite Hsp. clear Hsp. cbn [fst snd].
  pose proof (take_prefix (String c n) (" (" ++ ty ++ ")")) as Ht.
  cbn [String.append] in Ht. rewrite Ht. clear Ht.
  re_step. rewrite run_star_class.
  2:{ intros b c' s cs Hc'. re_step. rewrite run_chr.
      now rewrite (space_not_paren _ Hc'). }
  cbn [span]. change (is_space " ") with true. change (is_space "(") with false.
  cbv beta iota. cbn [fst snd]. re_step. rewrite run_chr.
  change (Ascii.eqb "(" "(") with true. re_step. reflexivity.
Qed.

Lemma columns_of_column_line (c : ascii) (n ty : string) :
  is_word c = true -> all_word n = true ->
  columns_of_line ("  - " ++ String c n ++ " (" ++ ty ++ ")") = [String c n].
Proof.
  intros Hc Hn. unfold columns_of_line.
  rewrite (@schema_line_match c n ty Hc Hn). cbn [Re.group Nat.eqb].
  replace (starts_with "- " (strip ("  - " ++ String c n ++ " (" ++ ty ++ ")")))
    with true; [reflexivity|].
  symmetry. unfold strip. cbn [String.append lstrip].
  change (is_space " ") with true. change (is_space "-") with false. cbv iota.
  assert (Hr : rstrip (String c (n ++ " (" ++ ty ++ ")")) <> EmptyString)
    by (apply rstrip_nonspace, word_not_space, Hc).
  cbn [String.append] in Hr.
  rewrite rstrip_cons by (rewrite rstrip_cons by exact Hr; discriminate).
  rewrite rstrip_cons by exact Hr. reflexivity.
Qed.

Lemma columns_of_table_line (name : string) :
  columns_of_line ("Table: " ++ name) = [].
Proof.
  unfold columns_of_line, strip. cbn [String.append lstrip].
  change (is_space "T") with false. cbv iota.
  destruct (@rstrip_head "T"%char ("able: " ++ name) eq_refl) as [r' Hr].
  cbn [String.append] in Hr. rewrite Hr. reflexivity.
Qed.

Lemma concat_cons (x : string) (xs : list string) :
  String.concat EmptyString (x :: xs) = x ++ String.concat EmptyString xs.
Proof. destruct xs; cbn [String.concat]; [now rewrite append_nil_r | reflexivity]. Qed.

(** A column the schema text can carry: a name of word characters and a
    type on one line. *)
Definition plain_column (c : SQLiteTool.Column) : Prop :=
  SQLiteTool.col_name c <> EmptyString
  /\ all_word (SQLiteTool.col_name c) = true
  /\ one_line (SQLiteTool.col_type c) = true.

Lemma column_lines (cols : list SQLiteTool.Column) (rest : string) :
  Forall plain_column cols ->
  flat_map columns_of_line
    (lines_from (String.concat EmptyString (map SQLiteTool.column_line cols) ++ rest)
                EmptyString)
  = (map SQLiteTool.col_name cols
     ++ flat_map columns_of_line (lines_from rest EmptyString))%list.
Proof.
  induction 1 as [|col cols (Hne & Hw & Hty) _ IH]; cbn [map].
  - reflexivity.
  - rewrite concat_cons. unfold SQLiteTool.column_line at 1.
    destruct (SQLiteTool.col_name col) as [|c n] eqn:En; [congruence|].
    cbn [all_word] in Hw. apply andb_true_iff in Hw as [Hc Hn].
    assert (Hline : one_line ("  - " ++ String c n ++ " (" ++ SQLiteTool.col_type col ++ ")")
                    = true).
    { rewrite !one_line_app, Hty.
      rewrite (word_one_line (String c n))
        by (cbn [all_word]; now rewrite Hc, Hn).
      reflexivity. }
    match goal with
    | |- context [lines_from ?w EmptyString] =>
        replace w
          with (("  - " ++ String c n ++ " (" ++ SQLiteTool.col_type col ++ ")")
                ++ String nl (String.concat EmptyString
                                (map SQLiteTool.column_line cols) ++ rest))
          by (unfold newline; fold nl; rewrite !append_assoc; reflexivity)
    end.
    rewrite (@lines_from_line _ _ EmptyString Hline). cbn [flat_map String.append].
    pose proof (@columns_of_column_line c n (SQLiteTool.col_type col) Hc Hn) as Hcol.
    cbn [String.append] in Hcol. rewrite Hcol, IH. reflexivity.
Qed.

Lemma extract_columns_lines (text : string) :
  extract_columns_from_schema text
  = flat_map columns_of_line (lines_from text EmptyString).
Proof. unfold extract_columns_from_schema. now rewrite split_lines. Qed.

Lemma table_text_columns (t : SQLiteTool.Table) :
  one_line (SQLiteTool.table_name t) = true ->
  Forall plain_column (SQLiteTool.table_columns t) ->
  extract_columns_from_schema (SQLiteTool.table_text t)
  = map SQLiteTool.col_name (SQLiteTool.table_columns t).
Proof.
  intros Hname Hcols. rewrite extract_columns_lines. unfold SQLiteTool.table_text.
  match goal with
  | |- context [lines_from ?w EmptyString] =>
      replace w
        with (("Table: " ++ SQLiteTool.table_name t)
              ++ String nl (String.concat EmptyString
                              (map SQLiteTool.column_line (SQLiteTool.table_columns t))
                            ++ newline))
        by (unfold newline; fold nl; rewrite !append_assoc; reflexivity)
  end.
  rewrite lines_from_line by (rewrite one_line_app, Hname; reflexivity).
  cbn [flat_map String.append].
  pose proof (columns_of_table_line (SQLiteTool.table_name t)) as Ht.
  cbn [String.append] in Ht. rewrite Ht. cbn [app].
  rewrite (@column_lines _ newline Hcols).
  change (flat_map columns_of_line (lines_from newline EmptyString)) with (@nil string).
  apply app_nil_r.
Qed.

(** X11.  Reading the columns back from the schema text of a table gives the
    table's column names, in order, when the table name and the column types
    hold no newline and every column name is a non-empty word. *)
Theorem schema_text_round_trip (t : SQLiteTool.Table) :
  one_line (SQLiteTool.table_name t) = true ->
  Forall plain_column (SQLiteTool.table_columns t) ->
  extract_columns_from_schema (SQLiteTool.table_text t)
  = map SQLiteTool.col_name (SQLiteTool.table_columns t).
Proof. exact (table_text_columns t). Qed.

Lemma schema_text_round_trip_witness :
  Forall
    (fun t => extract_columns_from_schema (SQLiteTool.table_text t)
              = map SQLiteTool.col_name (SQLiteTool.table_columns t))
    northwind_catalog.
Proof.
  apply Forall_forall. intros t Ht. unfold northwind_catalog in Ht.
  cbn [In] in Ht. apply schema_text_round_trip.
  - destruct Ht as [<- | [<- | []]]; reflexivity.
  - destruct Ht as [<- | [<- | []]]; repeat constructor; discriminate.
Defined.

(** A column name with a space does not come back. *)
Example spaced_column_lost :
  extract_columns_from_schema
    (SQLiteTool.table_text
       {| SQLiteTool.table_name := "Products";
          SQLiteTool.table_columns :=
            [{| SQLiteTool.col_name := "Unit Price"; SQLiteTool.col_type := "REAL" |};
             {| SQLiteTool.col_name := "ProductID"; SQLiteTool.col_type := "INTEGER" |}] |})
  = ["ProductID"].
Proof. vm_compute. reflexivity. Qed.

End SchemaText.

(** ** The validator's catalogue *)

Section ValidatorMirror.

Import PyStr SQLValidator.














End ValidatorMirror.

(** ** What the search returns *)

Section SearchBest.

Import Retriever.

Variable r : Retriever.t.
Variable query : string.
Variable sim : string -> nat -> Q.

(** [similarities] of [search]. *)
Definition similarities : list Q :=
  map (sim query) (seq 0 (List.length (chunks r))).

Lemma similarities_nth (idx : nat) :
  (idx < List.length (chunks r))%nat -> nth idx similarities 0%Q = sim query idx.
Proof.
  intros H. unfold similarities.
  rewrite (nth_indep _ 0%Q (sim query 0%nat)) by (now rewrite length_map, length_seq).
  rewrite map_nth. now rewrite seq_nth.
Qed.

Lemma argsort_index (idx : nat) :
  In idx (argsort similarities) <-> (idx < List.length (chunks r))%nat.
Proof.
  assert (Hl : List.length similarities = List.length (chunks r))
    by (unfold similarities; now rewrite length_map, length_seq).
  split; intros H.
  - apply (Permutation_in _ (argsort_perm similarities)) in H.
    rewrite Hl in H. apply in_seq in H. lia.
  - apply (Permutation_in _ (Permutation_sym (argsort_perm similarities))).
    rewrite Hl. apply in_seq. lia.
Qed.

Lemma hit_positive (idx : nat) (c : Chunk) :
  nth_error (chunks r) idx = Some c -> (0 < sim query idx)%Q ->
  hit r query sim idx = [{| chunk := c; score := sim query idx |}].
Proof.
  intros Hn Hp. unfold hit. fold similarities.
  assert (Hlt : (idx < List.length (chunks r))%nat)
    by (apply nth_error_Some; congruence).
  rewrite (@similarities_nth idx Hlt), Hn.
  destruct (Qle_bool (sim query idx) 0) eqn:E; [|reflexivity].
  apply Qle_bool_iff in E. exfalso. exact (Qlt_not_le _ _ Hp E).
Qed.

Lemma hit_index (idx : nat) (s : Scored) :
  In s (hit r query sim idx) ->
  nth_error (chunks r) idx = Some (chunk s)
  /\ score s = sim query idx /\ (0 < score s)%Q.
Proof.
  intros H. apply hit_cases in H as (Hn & Hs & Hp).
  split; [exact Hn|]. split; [|exact Hp].
  rewrite Hs. apply similarities_nth. apply nth_error_Some. congruence.
Qed.

Lemma hits_all (idxs : list nat) :
  (forall j, In j idxs -> exists s, hit r query sim j = [s]) ->
  List.length (flat_map (hit r query sim) idxs) = List.length idxs.
Proof.
  induction idxs as [|i l IH]; intros H; [reflexivity|].
  cbn [flat_map]. rewrite length_app.
  destruct (H i (or_introl eq_refl)) as [s ->].
  cbn [List.length]. rewrite IH; [reflexivity|].
  intros j Hj. apply H. now right.
Qed.

Lemma sorted_app (A : Type) (R : A -> A -> Prop) (l1 l2 : list A) :
  StronglySorted R (l1 ++ l2) ->
  forall x y, In x l1 -> In y l2 -> R x y.
Proof.
  induction l1 as [|a l1 IH]; intros Hs x y Hx Hy; [destruct Hx|].
  cbn [app] in Hs. inversion Hs as [|? ? Hs' Hall]; subst.
  destruct Hx as [<- | Hx].
  - rewrite Forall_forall in Hall. apply Hall. apply in_app_iff. now right.
  - now apply IH.
Qed.

Lemma search_fitted (top_k : Z) :
  1 <= top_k -> vectorizer r = Some sim -> chunks r <> [] ->
  search r query top_k
  = flat_map (hit r query sim)
      (rev (skipn (List.length (argsort similarities) - Z.to_nat top_k)
                  (argsort similarities))).
Proof.
  intros Hk Hv Hc. rewrite (@search_unfold r query sim top_k Hv Hc).
  fold similarities. now rewrite slice_from_last.
Qed.

Lemma search_complete (top_k : Z) (idx : nat) (c : Chunk) :
  1 <= top_k -> vectorizer r = Some sim ->
  nth_error (chunks r) idx = Some c -> (0 < sim query idx)%Q ->
  In {| chunk := c; score := sim query idx |} (search r query top_k)
  \/ (Z.of_nat (List.length (search r query top_k)) = top_k
      /\ Forall (fun s => (sim query idx <= score s)%Q) (search r query top_k)).
Proof.
  intros Hk Hv Hn Hp.
  assert (Hne : chunks r <> []) by (intros E; rewrite E in Hn; now destruct idx).
  assert (Hlt : (idx < List.length (chunks r))%nat)
    by (apply nth_error_Some; congruence).
  rewrite (@search_fitted top_k Hk Hv Hne).
  set (a := argsort similarities).
  set (m := (List.length a - Z.to_nat top_k)%nat).
  assert (Hin : In idx a) by now apply argsort_index.
  rewrite <- (firstn_skipn m a) in Hin. apply in_app_iff in Hin as [Hpre | Hsuf].
  - right.
    assert (Hm : (0 < m)%nat).
    { destruct m; [|lia]. destruct Hpre. }
    assert (Hle : forall j, In j (skipn m a) ->
                  (sim query idx <= nth j similarities 0)%Q).
    { intros j Hj.
      pose proof (argsort_sorted similarities) as Hs. fold a in Hs.
      rewrite <- (firstn_skipn m a) in Hs.
      pose proof (@sorted_app _ _ _ _ Hs idx j Hpre Hj) as Hij.
      unfold sim_le in Hij. now rewrite (@similarities_nth idx Hlt) in Hij. }
    split.
    + rewrite hits_all.
      * rewrite length_rev, length_skipn. unfold m. lia.
      * intros j Hj. apply in_rev in Hj.
        assert (Hja : (j < List.length (chunks r))%nat).
        { apply argsort_index. fold a. rewrite <- (firstn_skipn m a).
          apply in_app_iff. now right. }
        destruct (nth_error (chunks r) j) as [cj|] eqn:Ej.
        2:{ apply nth_error_None in Ej. lia. }
        exists {| chunk := cj; score := sim query j |}.
        apply hit_positive; [exact Ej|].
        specialize (Hle j Hj). rewrite (@similarities_nth j Hja) in Hle.
        eapply Qlt_le_trans; eauto.
    + apply Forall_forall. intros s Hs.
      apply in_flat_map in Hs as [j [Hj Hs]]. apply in_rev in Hj.
      apply hit_cases in Hs as (_ & Hsc & _). rewrite Hsc.
      now apply Hle.
  - left. apply in_flat_map. exists idx. split; [now apply -> in_rev|].
    rewrite (@hit_positive idx c Hn Hp). now left.
Qed.

(** X13.  With a fitted index and a positive [top_k], [search] returns the
    [top_k] best chunks of positive similarity: at most [top_k] results in
    descending order of score, each a chunk of the corpus scored with its
    own similarity, which is positive; and a chunk of positive similarity
    that is left out is left out only because [top_k] results, none scored
    lower, were returned. *)
Theorem search_returns_best (top_k : Z) :
  1 <= top_k ->
  vectorizer r = Some sim ->
  Z.of_nat (List.length (search r query top_k)) <= top_k
  /\ StronglySorted (fun a b => (score b <= score a)%Q) (search r query top_k)
  /\ (forall s, In s (search r query top_k) ->
        exists idx, nth_error (chunks r) idx = Some (chunk s)
                    /\ score s = sim query idx /\ (0 < score s)%Q)
  /\ (forall idx c,
        nth_error (chunks r) idx = Some c -> (0 < sim query idx)%Q ->
        In {| chunk := c; score := sim query idx |} (search r query top_k)
        \/ (Z.of_nat (List.length (search r query top_k)) = top_k
            /\ Forall (fun s => (sim query idx <= score s)%Q)
                      (search r query top_k))).
Proof.
  intros Hk Hv.
  destruct (@search_top_k_positive r query top_k Hk) as (Hlen & _ & Hsorted & _).
  split; [exact Hlen|]. split; [exact Hsorted|]. split.
  - intros s Hs.
    destruct (chunks r) as [|c0 cs] eqn:Hc.
    { rewrite (@search_empty_corpus r query top_k Hc) in Hs. destruct Hs. }
    assert (Hne : chunks r <> []) by congruence. rewrite <- Hc.
    rewrite (@search_fitted top_k Hk Hv Hne) in Hs.
    apply in_flat_map in Hs as [idx [_ Hs]].
    exists idx. now apply hit_index.
  - intros idx c. now apply search_complete.
Qed.

End SearchBest.

(** A fitted index over three chunks of similarity 1/4, 0 and 1/2. *)
Definition three_chunks : Retriever.t :=
  {| Retriever.chunks :=
       [ {| Retriever.id := "a::chunk0"; Retriever.content := "returns";
            Retriever.source := "a" |};
         {| Retriever.id := "a::chunk1"; Retriever.content := "shipping";
            Retriever.source := "a" |};
         {| Retriever.id := "b::chunk0"; Retriever.content := "return policy";
            Retriever.source := "b" |} ];
     Retriever.vectorizer :=
       Some (fun _ i => match i with
                        | O => 1 # 4
                        | S O => 0%Q
                        | _ => 1 # 2
                        end) |}.

Lemma search_returns_best_witness :
  1 <= 1
  /\ map id_and_score (Retriever.search three_chunks "return policy" 1)
     = [("b::chunk0", 1 # 2)]
  /\ Z.of_nat (List.length (Retriever.search three_chunks "return policy" 1)) <= 1.
Proof.
  split; [lia|]. split; [vm_compute; reflexivity|].
  exact (proj1 (@search_returns_best three_chunks "return policy" _ 1
                  ltac:(lia) eq_refl)).
Defined.

(** ** Chunk ids *)

Section ChunkIds.

Import PyStr Retriever.

(** The number a string of decimal digits stands for, read after [v]. *)
Fixpoint val_from (v : nat) (s : string) : nat :=
  match s with
  | EmptyString => v
  | String c r => val_from (10 * v + (nat_of_ascii c - 48)) r
  end.

Lemma val_from_app (a b : string) (v : nat) :
  val_from v (a ++ b) = val_from (val_from v a) b.
Proof. revert v; induction a as [|c a IH]; intros v; cbn [String.append val_from]; auto. Qed.

Lemma str_of_nat_fuel_acc (n : nat) :
  forall fuel acc, (n < fuel)%nat ->
    str_of_nat_fuel fuel n acc = str_of_nat n ++ acc.
Proof.
  induction n as [n IH] using lt_wf_ind. intros fuel acc Hf.
  destruct fuel as [|f]; [lia|].
  unfold str_of_nat. cbn [str_of_nat_fuel].
  destruct (n / 10)%nat as [|q] eqn:Eq; [reflexivity|].
  assert (Hq : (S q < n)%nat).
  { rewrite <- Eq. apply Nat.div_lt; [|lia]. destruct n; [discriminate|lia]. }
  rewrite (IH (S q) Hq f) by lia.
  rewrite (IH (S q) Hq n) by lia.
  rewrite append_assoc. reflexivity.
Qed.

(** [str(n)] digit by digit. *)
Lemma str_of_nat_step (n : nat) :
  str_of_nat n
  = if (n <? 10)%nat then String (digit_char n) EmptyString
    else str_of_nat (n / 10) ++ String (digit_char (n mod 10)) EmptyString.
Proof.
  destruct (n <? 10)%nat eqn:E.
  - apply Nat.ltb_lt in E. unfold str_of_nat. cbn [str_of_nat_fuel].
    rewrite (Nat.div_small n 10 E), (Nat.mod_small n 10 E). reflexivity.
  - apply Nat.ltb_ge in E. unfold str_of_nat at 1. cbn [str_of_nat_fuel].
    destruct (n / 10)%nat as [|q] eqn:Eq.
    + apply Nat.div_small_iff in Eq; lia.
    + apply str_of_nat_fuel_acc. rewrite <- Eq. apply Nat.div_lt; lia.
Qed.

Lemma digit_char_val (d : nat) :
  (d < 10)%nat -> (nat_of_ascii (digit_char d) - 48 = d)%nat.
Proof.
  intros H. unfold digit_char. rewrite nat_ascii_embedding; lia.
Qed.

Lemma digit_char_not_k (d : nat) : (d < 10)%nat -> digit_char d <> "k"%char.
Proof.
  intros H E. apply (f_equal nat_of_ascii) in E. unfold digit_char in E.
  rewrite nat_ascii_embedding in E by lia. cbn in E. lia.
Qed.

(** Reading [str(n)] gives [n] back. *)
Lemma val_str_of_nat (n : nat) : val_from 0 (str_of_nat n) = n.
Proof.
  induction n as [n IH] using lt_wf_ind. rewrite str_of_nat_step.
  destruct (n <? 10)%nat eqn:E.
  - apply Nat.ltb_lt in E. cbn [val_from]. rewrite digit_char_val; lia.
  - apply Nat.ltb_ge in E. rewrite val_from_app. cbn [val_from].
    rewrite IH by (apply Nat.div_lt; lia).
    rewrite digit_char_val by (apply Nat.mod_upper_bound; lia).
    pose proof (Nat.div_mod_eq n 10). lia.
Qed.

Lemma str_of_nat_inj (i j : nat) : str_of_nat i = str_of_nat j -> i = j.
Proof.
  intros H. rewrite <- (val_str_of_nat i), <- (val_str_of_nat j). now rewrite H.
Qed.

Lemma list_of_append (a b : string) :
  list_ascii_of_string (a ++ b)
  = (list_ascii_of_string a ++ list_ascii_of_string b)%list.
Proof. induction a as [|c a IH]; cbn; [reflexivity | now rewrite IH]. Qed.

Lemma str_of_nat_no_k (n : nat) :
  Forall (fun c => c <> "k"%char) (list_ascii_of_string (str_of_nat n)).
Proof.
  induction n as [n IH] using lt_wf_ind. rewrite str_of_nat_step.
  destruct (n <? 10)%nat eqn:E.
  - apply Nat.ltb_lt in E. cbn [list_ascii_of_string].
    constructor; [now apply digit_char_not_k | constructor].
  - apply Nat.ltb_ge in E. rewrite list_of_append. apply Forall_app. split.
    + apply IH. apply Nat.div_lt; lia.
    + cbn [list_ascii_of_string]. constructor; [|constructor].
      apply digit_char_not_k. apply Nat.mod_upper_bound. lia.
Qed.

(** Two lists that agree read the same up to the first [k]. *)
Lemma split_at_first (A : Type) (k : A) (l1 l2 r1 r2 : list A) :
  Forall (fun c => c <> k) l1 -> Forall (fun c => c <> k) l2 ->
  (l1 ++ k :: r1 = l2 ++ k :: r2)%list -> l1 = l2 /\ r1 = r2.
Proof.
  revert l2; induction l1 as [|a l1 IH]; intros [|b l2] H1 H2 H; cbn in H.
  - injection H as ->. now split.
  - injection H as <- _. inversion H2; subst. congruence.
  - injection H as -> _. inversion H1; subst. congruence.
  - injection H as -> H. inversion H1; inversion H2; subst.
    destruct (IH l2) as [-> ->]; auto.
Qed.

Lemma list_of_string_inj (a b : string) :
  list_ascii_of_string a = list_ascii_of_string b -> a = b.
Proof.
  intros H. rewrite <- (string_of_list_ascii_of_string a),
    <- (string_of_list_ascii_of_string b). now rewrite H.
Qed.

Lemma chunk_id_inj (f f' : string) (i j : nat) :
  chunk_id f i = chunk_id f' j -> f = f' /\ i = j.
Proof.
  unfold chunk_id. intros H.
  apply (f_equal list_ascii_of_string) in H.
  rewrite !list_of_append in H.
  apply (f_equal (@rev ascii)) in H.
  rewrite !rev_app_distr in H.
  change (rev (list_ascii_of_string "::chunk"))
    with (["k"; "n"; "u"; "h"; "c"; ":"; ":"]%char) in H.
  rewrite <- !app_assoc in H. cbn [app] in H.
  apply split_at_first in H;
    try (apply Forall_rev; apply str_of_nat_no_k).
  destruct H as [Hd Hf].
  apply (f_equal (@rev ascii)) in Hd. rewrite !rev_involutive in Hd.
  apply list_of_string_inj, str_of_nat_inj in Hd.
  injection Hf as Hf.
  apply (f_equal (@rev ascii)) in Hf. rewrite !rev_involutive in Hf.
  apply list_of_string_inj in Hf. now split.
Qed.

(** The base name of a file without its [.md]. *)
Definition filename_of (file : string * string) : string :=
  replace ".md" "" (fst file).

Lemma enumerate_from_fst (A : Type) (l : list A) (i : nat) :
  map fst (enumerate_from i l) = seq i (List.length l).
Proof.
  revert i; induction l as [|x l IH]; intros i; cbn; [reflexivity|].
  now rewrite IH.
Qed.

Lemma join_nonempty (sep p : string) (rest : list string) :
  p <> EmptyString -> join sep (p :: rest) <> EmptyString.
Proof.
  intros Hp. destruct p as [|c p]; [congruence|].
  cbn [join]. destruct rest; cbn; discriminate.
Qed.

(** What one section of a file turns into. *)
Lemma chunks_of_file_shape (file : string * string) (c : Chunk) :
  In c (chunks_of_file file) ->
  exists i, source c = filename_of file
            /\ id c = chunk_id (filename_of file) i
            /\ content c <> EmptyString.
Proof.
  unfold chunks_of_file. intros H. apply in_flat_map in H as [p [_ H]].
  destruct (filter _ _) as [|l ls] eqn:E; [destruct H|].
  destruct H as [<- | []]. exists (fst p). cbn [source id content].
  split; [reflexivity|]. split; [reflexivity|].
  apply join_nonempty.
  assert (Hl : In l (l :: ls)) by now left.
  rewrite <- E in Hl. apply filter_In in Hl as [_ Hl].
  intros ->. discriminate.
Qed.

Lemma sections_nodup (g : nat * string -> list Chunk) (fn : string)
  (ps : list (nat * string)) :
  (forall p c, In c (g p) -> g p = [c] /\ id c = chunk_id fn (fst p)) ->
  NoDup (map fst ps) -> NoDup (map id (flat_map g ps)).
Proof.
  intros Hg. induction ps as [|p ps IH]; intros Hnd; [constructor|].
  cbn [map] in Hnd. inversion Hnd as [|? ? Hp Hnd']; subst.
  cbn [flat_map]. rewrite map_app.
  destruct (g p) as [|c cs] eqn:E; [now apply IH|].
  destruct (Hg p c) as [Hgp Hid]; [rewrite E; now left|].
  rewrite E in Hgp. injection Hgp as ->. cbn [map app].
  constructor; [|now apply IH].
  intros Hin. apply in_map_iff in Hin as (c' & Hc' & Hin).
  apply in_flat_map in Hin as [p' [Hp' Hin]].
  destruct (Hg p' c' Hin) as [_ Hid'].
  rewrite Hid, Hid' in Hc'. apply chunk_id_inj in Hc' as [_ Hc'].
  apply Hp. rewrite <- Hc'. now apply in_map.
Qed.

Lemma chunks_of_file_nodup (file : string * string) :
  NoDup (map id (chunks_of_file file)).
Proof.
  unfold chunks_of_file.
  apply sections_nodup with (fn := replace ".md" "" (fst file)).
  - intros p c H. destruct (filter _ _) as [|l ls]; [destruct H|].
    destruct H as [<- | []]. split; reflexivity.
  - rewrite enumerate_from_fst. apply seq_NoDup.
Qed.

Lemma load_and_chunk_docs_nodup (files : list (string * string)) :
  NoDup (map filename_of files) ->
  NoDup (map id (load_and_chunk_docs files)).
Proof.
  unfold load_and_chunk_docs.
  induction files as [|file files IH]; intros Hnd; [constructor|].
  cbn [map] in Hnd. inversion Hnd as [|? ? Hf Hnd']; subst.
  cbn [flat_map]. rewrite map_app.
  apply NoDup_app; [apply chunks_of_file_nodup | now apply IH |].
  intros x Hx Hx'.
  apply in_map_iff in Hx as (c & <- & Hc).
  apply in_map_iff in Hx' as (c' & Hcc & Hc').
  apply chunks_of_file_shape in Hc as (i & _ & Hi & _).
  apply in_flat_map in Hc' as [file' [Hfile' Hc']].
  apply chunks_of_file_shape in Hc' as (j & _ & Hj & _).
  rewrite Hi, Hj in Hcc. apply chunk_id_inj in Hcc as [Hcc _].
  apply Hf. rewrite <- Hcc. now apply in_map.
Qed.

(** X14.  Every chunk of the corpus comes from one file and one section of
    it: its source is the file's base name without [.md], its id is that
    name, [::chunk] and the section's number, and its content is not empty.
    The id determines the name and the number, so the chunks of files with
    different names have different ids. *)
Theorem chunk_ids_unique (files : list (string * string)) :
  NoDup (map filename_of files) ->
  NoDup (map id (load_and_chunk_docs files))
  /\ (forall c, In c (load_and_chunk_docs files) ->
        exists file i, In file files
                       /\ source c = filename_of file
                       /\ id c = chunk_id (source c) i
                       /\ content c <> EmptyString)
  /\ (forall f f' i j, chunk_id f i = chunk_id f' j -> f = f' /\ i = j).
Proof.
  intros Hnd. split; [now apply load_and_chunk_docs_nodup|]. split.
  - intros c Hc. unfold load_and_chunk_docs in Hc.
    apply in_flat_map in Hc as [file [Hfile Hc]].
    apply chunks_of_file_shape in Hc as (i & Hs & Hi & Hne).
    exists file, i. rewrite Hs. auto.
  - intros f f' i j. apply chunk_id_inj.
Qed.

End ChunkIds.

Definition two_docs : list (string * string) :=
  demo_docs ++ [("catalog.md", "# Catalog
Beverages and condiments.")].

Lemma chunk_ids_unique_witness :
  NoDup (map filename_of two_docs)
  /\ NoDup (map Retriever.id (Retriever.load_and_chunk_docs two_docs))
  /\ map Retriever.id (Retriever.load_and_chunk_docs two_docs)
     = ["policy::chunk0"; "policy::chunk1"; "catalog::chunk0"].
Proof.
  assert (H : NoDup (map filename_of two_docs)).
  { vm_compute. repeat constructor; simpl; intuition discriminate. }
  split; [exact H|]. split; [|vm_compute; reflexivity].
  exact (proj1 (@chunk_ids_unique two_docs H)).
Defined.

(** ** The citations of an output record *)

(** An id the chunking gives out. *)
Definition is_chunk_id (x : string) : Prop :=
  exists f i, x = Retriever.chunk_id f i.

(** A context made of chunks of the corpus. *)
Definition corpus_context (st : AgentState) : Prop :=
  Forall (fun s => is_chunk_id (Retriever.id (Retriever.chunk s))) (context st).

Lemma retriever_context (env : Env) (st : AgentState) (u : Update) :
  retriever_node env st = Ok u -> corpus_context (apply_update st u).
Proof.
  intros E. destruct (retriever_node_frame _ _ E) as (rt & Hi & Hc & _).
  unfold corpus_context. rewrite Hc. apply Forall_forall. intros s Hs.
  apply search_In in Hs as [Hs _].
  apply init_chunks in Hi as (fs & _ & Hfs). rewrite Hfs in Hs.
  now apply load_and_chunk_docs_id in Hs.
Qed.

Lemma context_from_router (f : nat) (world : nat -> Env) (q : Question)
  (st' : AgentState) :
  snd (run (S (S f)) world 0 router (initial_state q)) = Finished st' ->
  corpus_context st'.
Proof.
  rewrite run_router.
  destruct (router_lm (world 0%nat) (q_question q)) as [s|m]; [|discriminate].
  cbv zeta. cbn [snd].
  assert (Hfin : forall fuel tick n st,
             sql_branch n = true ->
             repair_count st = 0 -> errors st = [] -> corpus_context st ->
             snd (run fuel world tick n st) = Finished st' ->
             corpus_context st').
  { intros fuel tick n st Hn Hr He Hc H.
    destruct (@run_sql_branch fuel world tick n st Hn) as [_ Hrun]; try lia.
    { intros _ Hne. congruence. }
    destruct (Hrun st' H) as ((_ & _ & _ & Hctx) & _).
    unfold corpus_context. now rewrite Hctx. }
  destruct (String.eqb (classify s) "sql").
  - intros H. apply (Hfin (S f) 1%nat planner (routed q s)); try reflexivity;
      [constructor | exact H].
  - rewrite run_retriever.
    destruct (retriever_node (world 1%nat) (routed q s)) as [u|m] eqn:E;
      [|discriminate].
    pose proof (retriever_context _ _ E) as Hc.
    destruct (retriever_node_frame _ _ E) as (rt & _ & _ & _ & _ & _ & Hr & He & _).
    cbv zeta. cbn [snd]. intros H.
    destruct (String.eqb (strategy (routed q s)) "rag").
    + apply (Hfin f 2%nat synthesizer (apply_update (routed q s) u));
        [reflexivity | now rewrite Hr | now rewrite He | exact Hc | exact H].
    + apply (Hfin f 2%nat planner (apply_update (routed q s) u));
        [reflexivity | now rewrite Hr | now rewrite He | exact Hc | exact H].
Qed.

Lemma finished_citations (world : nat -> Env) (q : Question) (st' : AgentState) :
  snd (invoke_trace world (initial_state q)) = Finished st' ->
  citations st' = build_citations (sql_query st') (context st')
  /\ corpus_context st'.
Proof.
  intros H. split.
  - now destruct (@settled_from_router 23 world q st' H) as (_ & _ & _ & _ & _ & Hc).
  - exact (@context_from_router 23 world q st' H).
Qed.

Lemma build_citations_In (sql : string) (ctx : list Retriever.Scored) (c : string) :
  Forall (fun s => is_chunk_id (Retriever.id (Retriever.chunk s))) ctx ->
  In c (build_citations sql ctx) ->
  (sql <> EmptyString /\ In c citation_tables /\ cites_table sql c = true)
  \/ is_chunk_id c.
Proof.
  intros Hctx H. unfold build_citations in H. apply in_app_iff in H as [H | H].
  - left. destruct (String.eqb sql EmptyString) eqn:E; [destruct H|].
    apply filter_In in H as [H1 H2]. split; [|now split].
    intros ->. discriminate.
  - right. apply in_map_iff in H as (s & <- & Hs).
    rewrite Forall_forall in Hctx. now apply Hctx.
Qed.

(** X15.  The citations of an output record: each is one of the four table
    names, cited by the SQL of the same record, or the id of a chunk of the
    corpus; a record without SQL cites chunks only; and the record of an
    invocation that raised has no SQL, no citation and the fixed answer. *)
Theorem record_citations (world : nat -> Env) (q : Question) :
  let o := process_question world q in
  o_id o = q_id q
  /\ (forall c, In c (o_citations o) ->
        (o_sql o <> EmptyString /\ In c citation_tables
         /\ cites_table (o_sql o) c = true)
        \/ is_chunk_id c)
  /\ (o_sql o = EmptyString -> Forall is_chunk_id (o_citations o))
  /\ (forall e, invoke world (initial_state q) = Raise e ->
        o_final_answer o = Some "Error processing request."
        /\ o_sql o = EmptyString /\ o_citations o = []
        /\ o_explanation o = e).
Proof.
  cbv zeta. unfold process_question, invoke.
  destruct (snd (invoke_trace world (initial_state q))) as [st'|m|] eqn:E;
    cbn [o_id o_citations o_sql o_final_answer o_explanation];
    try (split; [reflexivity|]; split; [intros c []|];
         split; [constructor|];
         intros e He; injection He as <-; repeat split; reflexivity).
  destruct (finished_citations world q E) as [Hc Hctx].
  assert (Hall : forall c, In c (citations st') ->
            (sql_query st' <> EmptyString /\ In c citation_tables
             /\ cites_table (sql_query st') c = true)
            \/ is_chunk_id c).
  { intros c Hin. rewrite Hc in Hin. now apply build_citations_In in Hin. }
  split; [reflexivity|]. split; [exact Hall|]. split; [|discriminate].
  intros Hsql. apply Forall_forall. intros c Hin.
  destruct (Hall c Hin) as [[Hne _] | H]; [congruence | exact H].
Qed.

Example record_citations_example :
  o_citations (process_question (fun _ => stubborn_env) demo_question) = []
  /\ o_sql (process_question (fun _ => stubborn_env) demo_question)
     = "SELECT * FROM Nope".
Proof. vm_compute. split; reflexivity. Qed.
